(** * txtoml: Poetry version constraints to pip requirement specifiers

    A shallow embedding of [constrain], of its nested function [caret] and
    of the command [txtoml]
    from [src/txtoml/txtoml.py], with the properties the specification
    states about them.

    Modelling conventions.
    - A Python [str] is a [string]; a character is a code point below 256,
      where the regular expression class [\d] is exactly ['0'..'9'].
    - A Python [int] obtained from [int(i)] on a run of digits is never
      negative, so it is an [N]; indices and the repetition count of
      [".0" * k] may be negative and are [Z].
    - A [dict] is the list of its items in insertion order, without two
      items of the same key.
    - The values of the dictionary [constrain] receives are strings, as
      its documentation has them.
    - An exception is a value of [exn]; code that may raise returns a
      [result].  Integers are unbounded; the limit recent interpreters put
      on the number of digits [int] and [str] convert is not modelled. *)

From Stdlib Require Import NArith ZArith Ascii DecimalN DecimalString.
From stdpp Require Import base list numbers strings.

Local Open Scope Z_scope.

(** ** Exceptions *)

Inductive exn : Set :=
  | IndexError
  | ValueError.

Inductive result (A : Type) : Type :=
  | Ok (a : A)
  | Raise (e : exn).
Arguments Ok {A} a.
Arguments Raise {A} e.

Global Instance result_ret : MRet result := fun A a => Ok a.

Global Instance result_bind : MBind result := fun A B k r =>
  match r with
  | Ok a => k a
  | Raise e => Raise e
  end.

(** ** The built-in [str] operations the program uses *)

Module Str.

Fixpoint mem (c : ascii) (chars : string) : bool :=
  match chars with
  | EmptyString => false
  | String d chars' => if decide (c = d) then true else mem c chars'
  end.

(** [s.lstrip(chars)]: drop the leading characters that occur in [chars]. *)
Fixpoint lstrip (chars s : string) : string :=
  match s with
  | EmptyString => EmptyString
  | String c s' => if mem c chars then lstrip chars s' else s
  end.

(** [s.startswith(p)] *)
Definition startswith (p s : string) : bool := String.prefix p s.

(** [s.count(sub)]: the number of non-overlapping occurrences of [sub],
    scanning from the left; [skip] counts the characters of the last
    match that are still to be passed over. *)
Fixpoint count_from (sub : string) (skip : nat) (s : string) : nat :=
  match s with
  | EmptyString => 0%nat
  | String c s' =>
      match skip with
      | S k => count_from sub k s'
      | O =>
          if String.prefix sub (String c s')
          then S (count_from sub (String.length sub - 1) s')
          else count_from sub 0 s'
      end
  end.

Definition count (sub s : string) : nat :=
  match sub with
  | EmptyString => S (String.length s)
  | _ => count_from sub 0 s
  end.

(** [s.replace(old, new)]: every non-overlapping occurrence of [old],
    from the left; the inserted text is not scanned again. *)
Fixpoint replace_from (old new : string) (skip : nat) (s : string) : string :=
  match s with
  | EmptyString => EmptyString
  | String c s' =>
      match skip with
      | S k => replace_from old new k s'
      | O =>
          if String.prefix old (String c s')
          then new +:+ replace_from old new (String.length old - 1) s'
          else String c (replace_from old new 0 s')
      end
  end.

Fixpoint intersperse (new s : string) : string :=
  match s with
  | EmptyString => new
  | String c s' => new +:+ String c (intersperse new s')
  end.

Definition replace (old new s : string) : string :=
  match old with
  | EmptyString => intersperse new s
  | _ => replace_from old new 0 s
  end.

(** [s * k]: the empty string when [k <= 0]. *)
Definition mul (s : string) (k : Z) : string :=
  Nat.iter (Z.to_nat k) (String.append s) EmptyString.

(** [sep.join(ls)] *)
Definition join (sep : string) (ls : list string) : string :=
  String.concat sep ls.

Definition is_digit (c : ascii) : bool :=
  match Ascii.is_nat c with
  | Some _ => true
  | None => false
  end.

Definition flush (run : string) : list string :=
  match run with
  | EmptyString => []
  | _ => [run]
  end.

(** [re.findall("\d+", s)]: the maximal runs of digits of [s], from the
    left; [run] is the run that is being read. *)
Fixpoint digit_runs (run s : string) : list string :=
  match s with
  | EmptyString => flush run
  | String c s' =>
      if is_digit c
      then digit_runs (run +:+ String c EmptyString) s'
      else flush run ++ digit_runs EmptyString s'
  end.

Definition findall_digits (s : string) : list string :=
  digit_runs EmptyString s.

(** [int(s)] on an unsigned decimal literal.  Signs, blanks and
    underscores, which [int] also accepts, are not modelled: [caret]
    applies [int] to runs of digits only. *)
Fixpoint int_from (acc : N) (s : string) : result N :=
  match s with
  | EmptyString => Ok acc
  | String c s' =>
      match Ascii.is_nat c with
      | Some d => int_from (acc * 10 + N.of_nat d)%N s'
      | None => Raise ValueError
      end
  end.

Definition int (s : string) : result N :=
  match s with
  | EmptyString => Raise ValueError
  | _ => int_from 0%N s
  end.

(** [str(n)] for [n >= 0]: decimal digits, no leading zero, ["0"] for 0. *)
Definition str (n : N) : string :=
  NilZero.string_of_uint (N.to_uint n).

End Str.

(** ** Lists indexed the Python way *)

(** The position that index [i] denotes in a list of [len] items: a
    negative index counts from the end, and an index out of range raises
    [IndexError]. *)
Definition py_index (len : nat) (i : Z) : result nat :=
  let j := if i <? 0 then i + Z.of_nat len else i in
  if (0 <=? j) && (j <? Z.of_nat len) then Ok (Z.to_nat j) else Raise IndexError.

(** [l[i] += d] *)
Definition list_iadd (l : list N) (i : Z) (d : N) : result (list N) :=
  k ← py_index (length l) i ;
  Ok (alter (fun n => (n + d)%N) k l).

(** [enumerate(l)] *)
Definition enumerate {A} (l : list A) : list (nat * A) := imap pair l.

(** ** [caret] *)

(** [lower_bound = version + (".0" * (2 - version.count(".")))], after
    [version = version.lstrip("^")]. *)
Definition caret_lower_bound (version : string) : string :=
  let version := Str.lstrip "^" version in
  version +:+ Str.mul ".0" (2 - Z.of_nat (Str.count "." version)).

(** [numbers = [int(i) for i in re.findall("\d+", lower_bound)]] *)
Definition caret_numbers (lower_bound : string) : result (list N) :=
  mapM Str.int (Str.findall_digits lower_bound).

(** The [for ... else] statement.  The loop runs over [enumerate(numbers)]
    of the list as it is on entry; the list is changed only in the
    iteration that breaks, and the [else] branch runs when no iteration
    did. *)
Fixpoint caret_for (numbers : list N) (items : list (nat * N)) : result (list N) :=
  match items with
  | (index, number) :: items' =>
      if (0 <? number)%N then
        numbers ← list_iadd numbers (Z.of_nat index) 1 ;
        Ok (imap (fun i n => if (index <? i)%nat then 0%N else n) numbers)
      else caret_for numbers items'
  | [] => list_iadd numbers (-1) 1
  end.

Definition caret_upper_numbers (numbers : list N) : result (list N) :=
  caret_for numbers (enumerate numbers).

(** [upper_bound = ".".join([str(i) for i in numbers])] *)
Definition caret_upper_bound (numbers : list N) : string :=
  Str.join "." (Str.str <$> numbers).

Definition caret (version : string) : result string :=
  let lower_bound := caret_lower_bound version in
  numbers ← caret_numbers lower_bound ;
  numbers ← caret_upper_numbers numbers ;
  let upper_bound := caret_upper_bound numbers in
  Ok (">=" +:+ lower_bound +:+ ", <" +:+ upper_bound).

(** ** Dictionaries *)

(** A [dict] of strings: its items in insertion order. *)
Abbreviation dict := (list (string * string)).

Definition dict_keys (d : dict) : list string := d.*1.

(** The items of a dictionary have distinct keys. *)
Definition dict_wf (d : dict) : Prop := NoDup (dict_keys d).

(** [d.items()] *)
Definition dict_items (d : dict) : list (string * string) := d.

(** [d.get(k)] *)
Fixpoint dict_get (k : string) (d : dict) : option string :=
  match d with
  | [] => None
  | (k', v') :: d' => if decide (k' = k) then Some v' else dict_get k d'
  end.

(** [d[k] = v]: the value of an existing key is replaced where the key
    stands, a new key goes to the end. *)
Fixpoint dict_set (k v : string) (d : dict) : dict :=
  match d with
  | [] => [(k, v)]
  | (k', v') :: d' =>
      if decide (k' = k) then (k', v) :: d' else (k', v') :: dict_set k v d'
  end.

(** ** [constrain] *)

(** The [if]/[elif]/[else] that computes [constraint] from [version]. *)
Definition constraint_of (version : string) : result string :=
  if Str.startswith "^" version then caret version
  else if Str.startswith "~" version then Ok (Str.replace "~" "~=" version)
  else Ok ("==" +:+ version).

(** The body of the [for] loop of [constrain], on the dictionary that is
    being built. *)
Definition constrain_body (constrained_packages : dict)
    (item : string * string) : result dict :=
  let '(package, version) := item in
  if decide (package ≠ "python") then
    constraint ← constraint_of version ;
    Ok (dict_set package constraint constrained_packages)
  else Ok constrained_packages.

Fixpoint constrain_for (constrained_packages : dict)
    (items : list (string * string)) : result dict :=
  match items with
  | [] => Ok constrained_packages
  | item :: items' =>
      constrained_packages ← constrain_body constrained_packages item ;
      constrain_for constrained_packages items'
  end.

Definition constrain (dependencies : dict) : result dict :=
  constrain_for [] (dict_items dependencies).

(** ** Calls of [constrain] on dictionary objects

    [constrain] receives a reference to the caller's dictionary and returns
    a reference to a dictionary it creates.  The objects live in a heap; a
    reference is the position of its object. *)

Abbreviation heap := (list dict).
Abbreviation ref := nat.

(** The object a reference denotes (references never dangle in Python; the
    statements below assume that the reference is in the heap). *)
Definition heap_read (h : heap) (r : ref) : dict := default [] (h !! r).

(** The [for] loop of [constrain] over the live view [dependencies.items()],
    [i] being the position of the next item and [remaining] the number of
    items the dictionary had on entry that are still to come; each
    iteration writes to the object [constrained_packages]. *)
Fixpoint constrain_iter (dependencies constrained_packages : ref)
    (i remaining : nat) (h : heap) : result heap :=
  match remaining with
  | O => Ok h
  | S remaining' =>
      match dict_items (heap_read h dependencies) !! i with
      | None => Ok h
      | Some item =>
          d ← constrain_body (heap_read h constrained_packages) item ;
          constrain_iter dependencies constrained_packages (S i) remaining'
            (<[constrained_packages := d]> h)
      end
  end.

(** A call [constrain(dependencies)] in heap [h]: the reference returned
    and the heap after the call. *)
Definition constrain_call (dependencies : ref) (h : heap) : result (ref * heap) :=
  let constrained_packages := length h in
  let h := h ++ [[]] in
  h ← constrain_iter dependencies constrained_packages 0
        (length (dict_items (heap_read h dependencies))) h ;
  Ok (constrained_packages, h).

(** ** The grammar of the source dialect *)

Fixpoint all_digits (s : string) : bool :=
  match s with
  | EmptyString => true
  | String c s' => Str.is_digit c && all_digits s'
  end.

(** A non-negative integer as it is written: one digit or more. *)
Definition is_literal (s : string) : bool :=
  match s with
  | EmptyString => false
  | _ => all_digits s
  end.

(** One to three literals, to be separated by dots. *)
Definition version_body (comps : list string) : Prop :=
  (1 ≤ length comps ≤ 3)%nat ∧ Forall (fun c => is_literal c = true) comps.


(** ** Notions of the specification *)

(** Lexicographic order on lists of integers, component by component from
    the left. *)
Fixpoint lex_le (xs ys : list N) : bool :=
  match xs, ys with
  | [], _ => true
  | _ :: _, [] => false
  | x :: xs', y :: ys' => (x <? y)%N || ((x =? y)%N && lex_le xs' ys')
  end.

(** The index of the leftmost non-zero component. *)
Fixpoint leftmost_nonzero (ns : list N) : option nat :=
  match ns with
  | [] => None
  | n :: ns' => if (n =? 0)%N then S <$> leftmost_nonzero ns' else Some 0%nat
  end.

(** The upper bound of a caret range in the words of the specification:
    the leftmost non-zero component, at index [k], is incremented and every
    component after it is set to 0; when all three are zero, only the last
    one is incremented. *)
Definition spec_upper (n0 n1 n2 : N) : list N :=
  match leftmost_nonzero [n0; n1; n2] with
  | Some k =>
      imap (fun i n =>
              if (i <? k)%nat then n
              else if (i =? k)%nat then (n + 1)%N
              else 0%N) [n0; n1; n2]
  | None => [n0; n1; (n2 + 1)%N]
  end.

(** Replacing every occurrence of character [c] by [new], in the words of
    the specification. *)
Fixpoint replace_every (c : ascii) (new s : string) : string :=
  match s with
  | EmptyString => EmptyString
  | String a s' =>
      if decide (a = c) then new +:+ replace_every c new s'
      else String a (replace_every c new s')
  end.

(** The item [constrain] emits for an item of its argument, and the items
    it emits for: those whose key is not ["python"]. *)
Definition translate_item (item : string * string) : result (string * string) :=
  constraint ← constraint_of item.2 ;
  Ok (item.1, constraint).

Definition not_python (key : string) : Prop := key ≠ "python".

Global Instance not_python_dec key : Decision (not_python key).
Proof. unfold not_python. apply _. Defined.

Definition emitted (items : list (string * string)) : list (string * string) :=
  filter (fun item => not_python item.1) items.

(** ** The command [txtoml]

    [txtoml] is modelled from the value [toml.load] returns to the text it
    leaves in the output file.  The time stamp of the first line is the
    argument [now]; reading the source file and opening the output file are
    taken to succeed. *)

(** A value of the parsed document: a string, a table, or one of the other
    kinds (numbers, booleans, dates, arrays), which have neither
    [startswith] nor [items] nor items under a string key. *)
#[warnings="-register-all"]
Inductive value : Type :=
  | VStr (s : string)
  | VTable (items : list (string * value))
  | VOther.

(** The exceptions of [txtoml]: those of [constrain] on strings, and those
    of a missing key and of a value of the wrong kind. *)
Inductive error : Type :=
  | Exn (e : exn)
  | KeyError (key : string)
  | TypeError
  | AttributeError.

Inductive outcome (A : Type) : Type :=
  | Done (a : A)
  | Fail (e : error).
Arguments Done {A} a.
Arguments Fail {A} e.

Global Instance outcome_ret : MRet outcome := fun A a => Done a.

Global Instance outcome_bind : MBind outcome := fun A B k r =>
  match r with
  | Done a => k a
  | Fail e => Fail e
  end.

Definition of_result {A} (r : result A) : outcome A :=
  match r with
  | Ok a => Done a
  | Raise e => Fail (Exn e)
  end.

Fixpoint table_get (key : string) (items : list (string * value)) : option value :=
  match items with
  | [] => None
  | (k, v) :: items' => if decide (k = key) then Some v else table_get key items'
  end.

(** [v[key]] for a string [key]. *)
Definition getitem (v : value) (key : string) : outcome value :=
  match v with
  | VTable items =>
      match table_get key items with
      | Some x => Done x
      | None => Fail (KeyError key)
      end
  | _ => Fail TypeError
  end.

(** The [if]/[elif]/[else] of [constrain] on a value of any kind:
    [version.startswith] exists on strings only. *)
Definition constraint_of_value (version : value) : outcome string :=
  match version with
  | VStr version => of_result (constraint_of version)
  | _ => Fail AttributeError
  end.

Definition constrain_value_body (constrained_packages : dict)
    (item : string * value) : outcome dict :=
  let '(package, version) := item in
  if decide (package ≠ "python") then
    constraint ← constraint_of_value version ;
    Done (dict_set package constraint constrained_packages)
  else Done constrained_packages.

Fixpoint constrain_value_for (constrained_packages : dict)
    (items : list (string * value)) : outcome dict :=
  match items with
  | [] => Done constrained_packages
  | item :: items' =>
      constrained_packages ← constrain_value_body constrained_packages item ;
      constrain_value_for constrained_packages items'
  end.

(** [constrain(dependencies)] on a value of any kind: [dependencies.items]
    exists on tables only. *)
Definition constrain_value (dependencies : value) : outcome dict :=
  match dependencies with
  | VTable items => constrain_value_for [] items
  | _ => Fail AttributeError
  end.

(** The table of strings that a dictionary of strings is. *)
Definition table_of (d : dict) : list (string * value) :=
  (fun item => (item.1, VStr item.2)) <$> d.

(** [pyproject["tool"]["poetry"][name]] *)
Definition poetry_table (pyproject : value) (name : string) : outcome value :=
  tool ← getitem pyproject "tool" ;
  poetry ← getitem tool "poetry" ;
  getitem poetry name.

(** The line feed. *)
Definition nl : string := String "010"%char EmptyString.

(** The loop [for package, version in d.items():
    requirements.write(f"{package}{version}\n")], on the text written so
    far. *)
Fixpoint write_items (requirements : string)
    (items : list (string * string)) : string :=
  match items with
  | [] => requirements
  | (package, version) :: items' =>
      write_items (requirements +:+ package +:+ version +:+ nl) items'
  end.

(** [txtoml(source, output, include_dev)] with [pyproject] the parsed
    source: the exception, if any, and the text of the output file after
    the call, [output] being its text before ([None] when there is no such
    file).  The file is opened, and emptied, once the regular dependencies
    are translated; what is written before an exception stays. *)
Definition txtoml (pyproject : value) (now : string) (include_dev : bool)
    (output : option string) : outcome unit * option string :=
  match poetry_table pyproject "dependencies" ≫= constrain_value with
  | Fail e => (Fail e, output)
  | Done regular =>
      let requirements := EmptyString in
      let requirements :=
        requirements +:+ "# Generated by txtoml on " +:+ now +:+ nl in
      let requirements := requirements +:+ nl +:+ "# Dependencies" +:+ nl in
      let requirements := write_items requirements (dict_items regular) in
      if include_dev then
        match poetry_table pyproject "dev-dependencies" ≫= constrain_value with
        | Fail e => (Fail e, Some requirements)
        | Done dev =>
            let requirements :=
              requirements +:+ nl +:+ "# Development dependencies" +:+ nl in
            (Done (), Some (write_items requirements (dict_items dev)))
        end
      else (Done (), Some requirements)
  end.

(** The lines of a dictionary: for every item, the key, the value and a
    line feed. *)
Fixpoint requirement_lines (items : list (string * string)) : string :=
  match items with
  | [] => EmptyString
  | (package, version) :: items' =>
      package +:+ version +:+ nl +:+ requirement_lines items'
  end.

(** A caret version for which [caret] raises: its padded body has no
    digit. *)
Definition digitless_caret (version : string) : Prop :=
  Str.startswith "^" version = true
  ∧ Str.findall_digits (caret_lower_bound version) = [].

(** * Properties *)

(** ** Strings *)

Section strings.
Implicit Types (s t run : string) (c : ascii).

Lemma str_app_cons c s t : String c s +:+ t = String c (s +:+ t).
Proof. reflexivity. Qed.

Lemma str_app_nil_l s : "" +:+ s = s.
Proof. reflexivity. Qed.

Lemma str_app_nil_r s : s +:+ "" = s.
Proof. induction s as [|c s IH]; [done|]. by rewrite str_app_cons, IH. Qed.

Lemma str_app_assoc s t u : (s +:+ t) +:+ u = s +:+ (t +:+ u).
Proof. induction s as [|c s IH]; [done|]. by rewrite !str_app_cons, IH. Qed.


Lemma is_literal_all_digits s : is_literal s = true → all_digits s = true.
Proof. by destruct s. Qed.


(** *** [re.findall] *)







(** *** [str.count] and [str.replace] with a pattern of one character *)

Lemma prefix_single c a s :
  String.prefix (String c "") (String a s) = bool_decide (a = c).
Proof.
  simpl. destruct (ascii_dec c a) as [->|Hne].
  - rewrite bool_decide_eq_true_2 by done. by destruct s.
  - by rewrite bool_decide_eq_false_2 by congruence.
Qed.




Lemma replace_single c new s :
  Str.replace (String c "") new s = replace_every c new s.
Proof.
  unfold Str.replace. induction s as [|a s IH]; [done|].
  cbn [Str.replace_from replace_every]. rewrite prefix_single.
  case_decide; case_bool_decide; try done; simpl; by rewrite IH.
Qed.



End strings.

(** ** The [result] monad *)

Lemma bind_Ok {A B} (a : A) (k : A → result B) : Ok a ≫= k = k a.
Proof. reflexivity. Qed.

Lemma bind_Raise {A B} e (k : A → result B) : Raise e ≫= k = Raise e.
Proof. reflexivity. Qed.

Lemma bind_Ok_inv {A B} (r : result A) (k : A → result B) b :
  r ≫= k = Ok b → ∃ a, r = Ok a ∧ k a = Ok b.
Proof. destruct r as [a|e]; [by exists a|done]. Qed.

Section mapM.
Context {A B : Type}.
Implicit Types (f : A → result B) (l : list A).

Lemma mapM_nil f : mapM f [] = Ok [].
Proof. reflexivity. Qed.

Lemma mapM_cons f a l :
  mapM f (a :: l) = b ← f a; bs ← mapM f l; Ok (b :: bs).
Proof. reflexivity. Qed.

Lemma mapM_Ok_Forall2 f l bs :
  mapM f l = Ok bs ↔ Forall2 (fun a b => f a = Ok b) l bs.
Proof.
  revert bs. induction l as [|a l IH]; intros bs.
  - rewrite mapM_nil. split; [intros [= <-]; constructor|by inversion 1].
  - rewrite mapM_cons. split.
    + intros (b & Hb & (bs' & Hbs & [= <-])%bind_Ok_inv)%bind_Ok_inv.
      constructor; [done|]. by apply IH.
    + inversion 1 as [|? b ? bs' Hb Hbs]; subst.
      apply IH in Hbs. by rewrite Hb, bind_Ok, Hbs.
Qed.

Lemma mapM_total f l :
  Forall (fun a => ∃ b, f a = Ok b) l → ∃ bs, mapM f l = Ok bs.
Proof.
  induction 1 as [|a l [b Hb] _ [bs Hbs]]; [by exists []|].
  exists (b :: bs). by rewrite mapM_cons, Hb, bind_Ok, Hbs.
Qed.

Lemma mapM_app f l1 l2 :
  mapM f (l1 ++ l2) = bs1 ← mapM f l1; bs2 ← mapM f l2; Ok (bs1 ++ bs2).
Proof.
  induction l1 as [|a l1 IH].
  - rewrite mapM_nil, bind_Ok. simpl. by destruct (mapM f l2).
  - rewrite <-app_comm_cons, !mapM_cons, IH.
    destruct (f a) as [b|e]; [|done]. rewrite !bind_Ok.
    destruct (mapM f l1) as [bs1|e]; [|done]. rewrite !bind_Ok.
    by destruct (mapM f l2).
Qed.

End mapM.

(** ** [int] and [str] *)

Section numbers.
Implicit Types (s : string) (n acc : N) (d : Decimal.uint).






End numbers.

(** [int] reads back what [str] writes. *)




(** ** [caret] *)

Section caret.
Implicit Types (version lower_bound : string) (numbers : list N).


Lemma py_index_in_range (len i : nat) :
  (i < len)%nat → py_index len (Z.of_nat i) = Ok i.
Proof.
  intros Hi. unfold py_index.
  rewrite (proj2 (Z.ltb_ge _ _)) by lia.
  rewrite (proj2 (Z.leb_le _ _)), (proj2 (Z.ltb_lt _ _)) by lia.
  simpl. by rewrite Nat2Z.id.
Qed.

Lemma py_index_last (len : nat) :
  (0 < len)%nat → py_index len (-1) = Ok (len - 1)%nat.
Proof.
  intros Hlen. unfold py_index. simpl.
  rewrite (proj2 (Z.leb_le _ _)), (proj2 (Z.ltb_lt _ _)) by lia.
  simpl. f_equal. lia.
Qed.

Lemma py_index_empty i : py_index 0 i = Raise IndexError.
Proof.
  unfold py_index. simpl. destruct (i <? 0) eqn:Hi.
  - rewrite Z.add_0_r. by rewrite (proj2 (Z.leb_gt _ _)) by lia.
  - apply Z.ltb_ge in Hi. destruct (0 <=? i); [|done].
    by rewrite (proj2 (Z.ltb_ge _ _)) by lia.
Qed.

Lemma caret_for_total numbers items :
  numbers ≠ [] →
  Forall (fun item => (item.1 < length numbers)%nat) items →
  ∃ upper, caret_for numbers items = Ok upper
    ∧ length upper = length numbers.
Proof.
  intros Hne. induction 1 as [|[index number] items Hi _ IH]; simpl.
  - unfold list_iadd. rewrite py_index_last.
    + eexists. split; [done|]. by rewrite length_alter.
    + destruct numbers; [done|]. simpl. lia.
  - destruct (0 <? number)%N; [|done].
    unfold list_iadd. rewrite py_index_in_range by done.
    eexists. split; [done|]. by rewrite length_imap, length_alter.
Qed.

Lemma enumerate_index {A} (l : list A) :
  Forall (fun item => (item.1 < length l)%nat) (enumerate l).
Proof.
  apply Forall_forall. intros [i x] Hin.
  apply elem_of_lookup_imap in Hin as (j & y & [= -> ->] & Hj).
  simpl. by eapply lookup_lt_Some.
Qed.

(** The [for ... else] statement succeeds unless the list is empty. *)
Lemma caret_upper_numbers_total numbers :
  numbers ≠ [] →
  ∃ upper, caret_upper_numbers numbers = Ok upper
    ∧ length upper = length numbers.
Proof. intros. apply caret_for_total; [done|apply enumerate_index]. Qed.

Lemma caret_upper_numbers_nil : caret_upper_numbers [] = Raise IndexError.
Proof. reflexivity. Qed.

(** On three components the loop computes the upper bound the
    specification describes. *)
Lemma caret_upper_numbers_spec n0 n1 n2 :
  caret_upper_numbers [n0; n1; n2] = Ok (spec_upper n0 n1 n2).
Proof. by destruct n0, n1, n2. Qed.

End caret.

(** ** Versions of the grammar *)

Section grammar.
Implicit Types (comps : list string) (version : string).

Local Abbreviation literals comps :=
  (Forall (fun c => is_literal c = true) comps).

Lemma join_cons_cons sep a b comps :
  Str.join sep (a :: b :: comps) = a +:+ sep +:+ Str.join sep (b :: comps).
Proof. reflexivity. Qed.









End grammar.

(** ** Dictionaries *)

Section dict.
Implicit Types (d acc out : dict) (k v : string)
  (items : list (string * string)).

Lemma dict_set_fresh k v d :
  k ∉ dict_keys d → dict_set k v d = d ++ [(k, v)].
Proof.
  induction d as [|[k' v'] d IH]; intros Hk; [done|].
  simpl. apply not_elem_of_cons in Hk as [Hne Hk].
  rewrite decide_False by done. by rewrite IH.
Qed.

Lemma dict_set_keys k v d :
  dict_keys (dict_set k v d)
  = if decide (k ∈ dict_keys d) then dict_keys d else dict_keys d ++ [k].
Proof.
  induction d as [|[k' v'] d IH]; [done|]. simpl.
  destruct (decide (k' = k)) as [->|Hne].
  - rewrite decide_True by left. done.
  - change (dict_keys ((k', v') :: dict_set k v d))
      with (k' :: dict_keys (dict_set k v d)).
    rewrite IH. destruct (decide (k ∈ dict_keys d)) as [Hin|Hin].
    + rewrite decide_True by (by right). done.
    + rewrite decide_False; [done|].
      intros [?|?]%elem_of_cons; by subst.
Qed.

Lemma dict_get_None k d : dict_get k d = None ↔ k ∉ dict_keys d.
Proof.
  induction d as [|[k' v'] d IH]; simpl.
  - split; [intros _; apply not_elem_of_nil|done].
  - rewrite not_elem_of_cons. destruct (decide (k' = k)) as [->|Hne].
    + split; [done|]. by intros [? _].
    + rewrite IH. split; [intros Hk; by split|by intros [_ Hk]].
Qed.

Lemma dict_get_Some k v d :
  dict_wf d → (k, v) ∈ d → dict_get k d = Some v.
Proof.
  unfold dict_wf, dict_keys.
  induction d as [|[k' v'] d IH]; intros Hwf Hin.
  { by apply elem_of_nil in Hin. }
  simpl in *. apply NoDup_cons in Hwf as [Hk' Hwf].
  apply elem_of_cons in Hin as [[= <- <-]|Hin].
  - by rewrite decide_True.
  - rewrite decide_False; [by apply IH|].
    intros ->. apply Hk'. by apply (list_elem_of_fmap_2 fst) in Hin.
Qed.

End dict.

(** ** [constrain] *)

Section constrain.
Implicit Types (dependencies acc out : dict) (package version : string)
  (items : list (string * string)).

Lemma constrain_body_python acc version :
  constrain_body acc ("python", version) = Ok acc.
Proof. reflexivity. Qed.

Lemma constrain_body_other acc package version :
  package ≠ "python" →
  constrain_body acc (package, version)
  = constraint ← constraint_of version;
    Ok (dict_set package constraint acc).
Proof. intros Hne. unfold constrain_body. by rewrite decide_True. Qed.

Lemma emitted_cons_python version items :
  emitted (("python", version) :: items) = emitted items.
Proof. unfold emitted. rewrite filter_cons_False; [done|]. by intros []. Qed.

Lemma emitted_cons_other package version items :
  package ≠ "python" →
  emitted ((package, version) :: items) = (package, version) :: emitted items.
Proof. intros. unfold emitted. by rewrite filter_cons_True. Qed.

Lemma emitted_keys items :
  (emitted items).*1 = filter not_python items.*1.
Proof.
  induction items as [|[package version] items IH]; [done|].
  destruct (decide (package = "python")) as [->|Hne].
  - rewrite emitted_cons_python, IH, fmap_cons. cbn [fst].
    rewrite filter_cons_False; [done|]. by intros [].
  - rewrite emitted_cons_other, !fmap_cons by done. cbn [fst].
    by rewrite filter_cons_True, IH.
Qed.

(** The entry keyed ["python"] has no effect, whatever its version. *)
Lemma constrain_for_emitted acc items :
  constrain_for acc items = constrain_for acc (emitted items).
Proof.
  revert acc. induction items as [|[package version] items IH]; intros acc.
  { done. }
  destruct (decide (package = "python")) as [->|Hne].
  - rewrite emitted_cons_python. cbn [constrain_for].
    rewrite constrain_body_python, bind_Ok. apply IH.
  - rewrite emitted_cons_other by done. cbn [constrain_for].
    destruct (constrain_body acc (package, version)) as [acc'|e]; [|done].
    rewrite !bind_Ok. apply IH.
Qed.

(** The loop in closed form: with distinct keys, every assignment
    [constrained_packages[package] = constraint] adds an item at the
    end. *)
Lemma constrain_for_closed acc items :
  NoDup (dict_keys acc ++ items.*1) →
  constrain_for acc items
  = out ← mapM translate_item (emitted items); Ok (acc ++ out).
Proof.
  revert acc. induction items as [|[package version] items IH]; intros acc Hnd.
  { simpl. by rewrite app_nil_r. }
  assert (NoDup (dict_keys acc ++ items.*1)) as Hnd'.
  { apply NoDup_app in Hnd as (Hacc & Hdisj & [_ Hitems]%NoDup_cons).
    apply NoDup_app. split_and!; [done| |done].
    intros k Hk Hin. apply (Hdisj k Hk). by right. }
  destruct (decide (package = "python")) as [->|Hne].
  - rewrite emitted_cons_python. cbn [constrain_for].
    rewrite constrain_body_python, bind_Ok. by apply IH.
  - rewrite emitted_cons_other by done. cbn [constrain_for].
    rewrite constrain_body_other, mapM_cons by done.
    change (translate_item (package, version))
      with (constraint ← constraint_of version; Ok (package, constraint)).
    destruct (constraint_of version) as [constraint|e]; [|done].
    rewrite !bind_Ok. rewrite dict_set_fresh.
    + rewrite IH.
      * destruct (mapM translate_item (emitted items)) as [out|e]; [|done].
        rewrite !bind_Ok. by rewrite <-app_assoc.
      * unfold dict_keys. rewrite fmap_app. simpl.
        rewrite <-app_assoc. simpl.
        apply NoDup_app in Hnd as (Hacc & Hdisj & Hitems).
        apply NoDup_app. split_and!; [done| |done]. apply Hdisj.
    + apply NoDup_app in Hnd as (_ & Hdisj & _).
      intros Hin. apply (Hdisj _ Hin). by left.
Qed.

Lemma constrain_closed dependencies :
  dict_wf dependencies →
  constrain dependencies = mapM translate_item (emitted dependencies).
Proof.
  intros Hwf. unfold constrain, dict_items.
  rewrite constrain_for_closed by done.
  by destruct (mapM translate_item (emitted dependencies)).
Qed.

End constrain.

(** ** Calls on the heap *)

Section heap.
Implicit Types (h : heap) (dependencies : ref) (acc : dict).

Lemma heap_read_app_l h (tail : list dict) r :
  (r < length h)%nat → heap_read (h ++ tail) r = heap_read h r.
Proof. intros Hr. unfold heap_read. by rewrite lookup_app_l. Qed.

Lemma heap_read_app_new h acc : heap_read (h ++ [acc]) (length h) = acc.
Proof. unfold heap_read. by rewrite list_lookup_middle. Qed.

Lemma heap_write_new h acc (d : dict) :
  <[length h := d]> (h ++ [acc]) = h ++ [d].
Proof. by rewrite insert_app_r_alt, Nat.sub_diag by lia. Qed.

(** The loop on the heap is the loop on the dictionary it builds: it
    reads the caller's object and writes only to the new one. *)
Lemma constrain_iter_closed h dependencies acc i remaining :
  (dependencies < length h)%nat →
  constrain_iter dependencies (length h) i remaining (h ++ [acc])
  = acc' ← constrain_for acc
             (take remaining (drop i (dict_items (heap_read h dependencies))));
    Ok (h ++ [acc']).
Proof.
  intros Hdep. revert i acc.
  induction remaining as [|remaining IH]; intros i acc; [done|].
  cbn [constrain_iter]. rewrite heap_read_app_l, heap_read_app_new by done.
  destruct (dict_items (heap_read h dependencies) !! i) as [item|] eqn:Hi.
  - rewrite (drop_S _ item) by done. cbn [take constrain_for].
    destruct (constrain_body acc item) as [d|e]; [|done].
    rewrite !bind_Ok, heap_write_new. apply IH.
  - apply lookup_ge_None in Hi. by rewrite drop_ge.
Qed.

Lemma constrain_call_closed h dependencies :
  (dependencies < length h)%nat →
  constrain_call dependencies h
  = out ← constrain (heap_read h dependencies); Ok (length h, h ++ [out]).
Proof.
  intros Hdep. unfold constrain_call.
  rewrite heap_read_app_l, constrain_iter_closed by done.
  rewrite drop_0, firstn_all. unfold constrain.
  by destruct (constrain_for _ _).
Qed.

End heap.

(** ** Entries of the result *)

Section entries.
Implicit Types (dependencies out : dict) (package version : string).

(** With distinct keys, the constraint found under a package that is
    not ["python"] is the one computed from its version. *)
Lemma constrain_entry dependencies out package version :
  dict_wf dependencies → constrain dependencies = Ok out →
  (package, version) ∈ dependencies → package ≠ "python" →
  ∃ constraint,
    constraint_of version = Ok constraint
    ∧ dict_get package out = Some constraint.
Proof.
  intros Hwf Hout Hin Hne. rewrite constrain_closed in Hout by done.
  apply mapM_Ok_Forall2 in Hout.
  assert ((package, version) ∈ emitted dependencies) as Hem.
  { by apply list_elem_of_filter. }
  assert (dict_wf out ∧ ∃ constraint,
    constraint_of version = Ok constraint ∧ (package, constraint) ∈ out)
    as (Hwfout & constraint & Hc & Hcin).
  { assert (NoDup (emitted dependencies).*1) as Hnd.
    { rewrite emitted_keys. by apply NoDup_filter. }
    clear Hin Hwf. unfold dict_wf, dict_keys.
    induction Hout as [|[k v] [k' c] items out' Hkv Hrest IH].
    { by apply elem_of_nil in Hem. }
    unfold translate_item in Hkv. simpl in Hkv.
    apply bind_Ok_inv in Hkv as (c' & Hc' & [= <- <-]).
    rewrite fmap_cons in Hnd. apply NoDup_cons in Hnd as [Hk Hnd].
    assert (out'.*1 = items.*1) as Hkeys.
    { clear -Hrest. induction Hrest as [|[k1 v1] [k2 c2] ? ? H12 _ IH];
        [done|].
      unfold translate_item in H12. simpl in H12.
      apply bind_Ok_inv in H12 as (? & _ & [= <- <-]).
      by rewrite !fmap_cons, IH. }
    rewrite fmap_cons. split.
    { apply NoDup_cons. rewrite Hkeys. by split. }
    apply elem_of_cons in Hem as [[= -> ->]|Hem].
    - exists c'. split; [done|]. by left.
    - destruct (IH Hem Hnd) as (_ & c & Hc & Hcin).
      exists c. split; [done|]. by right. }
  exists constraint. split; [done|]. by apply dict_get_Some.
Qed.

(** The keys of the result: those of the argument other than
    ["python"], in the order of the argument. *)
Lemma constrain_keys dependencies out :
  dict_wf dependencies → constrain dependencies = Ok out →
  dict_keys out = filter not_python (dict_keys dependencies).
Proof.
  intros Hwf Hout. rewrite constrain_closed in Hout by done.
  apply mapM_Ok_Forall2 in Hout. unfold dict_keys.
  rewrite <-emitted_keys.
  induction Hout as [|[k v] [k' c] ? ? Hkv _ IH]; [done|].
  unfold translate_item in Hkv. simpl in Hkv.
  apply bind_Ok_inv in Hkv as (? & _ & [= <- <-]).
  by rewrite !fmap_cons, IH.
Qed.

Lemma filter_not_python_length (keys : list string) :
  NoDup keys →
  (length (filter not_python keys)
   + (if decide ("python" ∈ keys) then 1 else 0))%nat = length keys.
Proof.
  induction 1 as [|k keys Hk Hnd IH]; [done|].
  destruct (decide (k = "python")) as [->|Hne].
  - rewrite filter_cons_False by (by intros []).
    rewrite decide_True by left.
    rewrite decide_False in IH by done. simpl. lia.
  - rewrite filter_cons_True by done. simpl.
    destruct (decide ("python" ∈ keys)) as [Hin|Hin].
    + rewrite decide_True by (by right). lia.
    + rewrite decide_False; [lia|].
      intros [?|?]%elem_of_cons; by subst.
Qed.

(** [constrain] returns when the constraint of every entry, that of
    ["python"] apart, is computed. *)
Lemma constrain_returns dependencies :
  dict_wf dependencies →
  Forall (fun item => item.1 = "python" ∨ ∃ c, constraint_of item.2 = Ok c)
    dependencies →
  ∃ out, constrain dependencies = Ok out.
Proof.
  intros Hwf Hall. rewrite constrain_closed by done.
  apply mapM_total. apply Forall_forall.
  intros [package version] [Hne Hin]%list_elem_of_filter.
  rewrite Forall_forall in Hall.
  destruct (Hall _ Hin) as [Hpy|[c Hc]]; [done|]. simpl in Hc.
  exists (package, c). unfold translate_item. simpl. by rewrite Hc.
Qed.

End entries.

(** * The claims of the specification *)

(** ** Caret ranges *)

(** C1.  A caret constraint whose padded body parses to three components
    [n0; n1; n2] gets the upper bound of the specification: the leftmost
    non-zero component is incremented and the components after it are set
    to 0, and [0.0.0] gets [0.0.1].  [caret] returns
    [">=<lower_bound>, <<upper_bound>"], which is the constraint found under
    the package in every result of [constrain]; [{"pkg": "^1.2.3"}] yields
    [{"pkg": ">=1.2.3, <2.0.0"}]. *)
Theorem caret_upper_bound_leftmost_nonzero
    (dependencies out : dict) (package version : string) (n0 n1 n2 : N) :
  dict_wf dependencies →
  constrain dependencies = Ok out →
  (package, version) ∈ dependencies →
  package ≠ "python" →
  Str.startswith "^" version = true →
  caret_numbers (caret_lower_bound version) = Ok [n0; n1; n2] →
  caret_upper_numbers [n0; n1; n2] = Ok (spec_upper n0 n1 n2)
  ∧ spec_upper 0 0 0 = [0; 0; 1]%N
  ∧ caret version
    = Ok (">=" +:+ caret_lower_bound version +:+ ", <"
          +:+ Str.join "." (Str.str <$> spec_upper n0 n1 n2))
  ∧ dict_get package out
    = Some (">=" +:+ caret_lower_bound version +:+ ", <"
            +:+ Str.join "." (Str.str <$> spec_upper n0 n1 n2))
  ∧ constrain [("pkg", "^1.2.3")] = Ok [("pkg", ">=1.2.3, <2.0.0")].
Proof.
  intros Hwf Hout Hin Hne Hcaret Hnumbers.
  assert (caret version
    = Ok (">=" +:+ caret_lower_bound version +:+ ", <"
          +:+ Str.join "." (Str.str <$> spec_upper n0 n1 n2))) as Hc.
  { unfold caret. by rewrite Hnumbers, bind_Ok, caret_upper_numbers_spec. }
  split_and!; [apply caret_upper_numbers_spec|done|done| |done].
  destruct (constrain_entry _ _ _ _ Hwf Hout Hin Hne) as (c & Hof & ->).
  unfold constraint_of in Hof. rewrite Hcaret in Hof. congruence.
Qed.

Lemma caret_upper_bound_leftmost_nonzero_witness :
  caret_upper_numbers [0; 2; 3]%N = Ok (spec_upper 0 2 3)
  ∧ spec_upper 0 0 0 = [0; 0; 1]%N
  ∧ caret "^0.2.3"
    = Ok (">=" +:+ caret_lower_bound "^0.2.3" +:+ ", <"
          +:+ Str.join "." (Str.str <$> spec_upper 0 2 3))
  ∧ dict_get "b" [("a", "==1.0"); ("b", ">=0.2.3, <0.3.0")]
    = Some (">=" +:+ caret_lower_bound "^0.2.3" +:+ ", <"
            +:+ Str.join "." (Str.str <$> spec_upper 0 2 3))
  ∧ constrain [("pkg", "^1.2.3")] = Ok [("pkg", ">=1.2.3, <2.0.0")].
Proof.
  apply (caret_upper_bound_leftmost_nonzero
           [("python", "^3.8"); ("a", "1.0"); ("b", "^0.2.3")]
           [("a", "==1.0"); ("b", ">=0.2.3, <0.3.0")] "b" "^0.2.3" 0 2 3).
  - compute_done.
  - vm_compute. reflexivity.
  - compute_done.
  - compute_done.
  - reflexivity.
  - vm_compute. reflexivity.
Defined.

(** The bounds as integers. *)













(** ** The dispatch on the sigil *)

Lemma startswith_single (c : ascii) (s : string) :
  Str.startswith (String c "") s = true → ∃ s', s = String c s'.
Proof.
  destruct s as [|a s]; [done|]. unfold Str.startswith.
  rewrite prefix_single. intros ->%bool_decide_eq_true. by exists s.
Qed.

Lemma replace_every_absent (c : ascii) (new s : string) :
  Str.mem c s = false → replace_every c new s = s.
Proof.
  induction s as [|a s IH]; [done|]. simpl.
  destruct (decide (c = a)) as [->|Hne]; [done|].
  intros Hs. rewrite decide_False by done. by rewrite IH.
Qed.

Lemma mem_app (c : ascii) (s t : string) :
  Str.mem c (s +:+ t) = Str.mem c s || Str.mem c t.
Proof.
  induction s as [|a s IH]; [done|]. rewrite str_app_cons. simpl.
  by destruct (decide (c = a)).
Qed.

Lemma mem_tilde_digits (s : string) :
  all_digits s = true → Str.mem "~" s = false.
Proof.
  induction s as [|a s IH]; [done|]. simpl.
  intros [Ha Hs]%andb_true_iff.
  destruct (decide ("~"%char = a)) as [<-|_]; [done|by apply IH].
Qed.

Lemma mem_tilde_join (comps : list string) :
  Forall (fun c => is_literal c = true) comps →
  Str.mem "~" (Str.join "." comps) = false.
Proof.
  induction 1 as [|a comps Ha _ IH]; [done|].
  apply is_literal_all_digits, mem_tilde_digits in Ha.
  destruct comps as [|b comps]; [done|].
  by rewrite join_cons_cons, !mem_app, Ha, IH.
Qed.

(** C6.  An entry whose version is [~] followed by one to three literals
    separated by dots is translated by replacing [~] with [~=];
    [{"pkg": "~1.2.3"}] yields [{"pkg": "~=1.2.3"}]. *)
Theorem tilde_compatible_release
    (dependencies out : dict) (package : string) (comps : list string) :
  version_body comps →
  dict_wf dependencies →
  constrain dependencies = Ok out →
  (package, "~" +:+ Str.join "." comps) ∈ dependencies →
  package ≠ "python" →
  constraint_of ("~" +:+ Str.join "." comps) = Ok ("~=" +:+ Str.join "." comps)
  ∧ dict_get package out = Some ("~=" +:+ Str.join "." comps)
  ∧ constrain [("pkg", "~1.2.3")] = Ok [("pkg", "~=1.2.3")].
Proof.
  intros [_ Hlit] Hwf Hout Hin Hne.
  assert (constraint_of ("~" +:+ Str.join "." comps)
          = Ok ("~=" +:+ Str.join "." comps)) as Hof.
  { unfold constraint_of.
    change (Str.startswith "^" ("~" +:+ Str.join "." comps)) with false.
    replace (Str.startswith "~" ("~" +:+ Str.join "." comps)) with true
      by (by destruct (Str.join "." comps)).
    cbv iota. change "~"%string with (String "~" "") at 1.
    rewrite replace_single.
    change ("~" +:+ ?s) with (String "~" s). cbn [replace_every].
    rewrite decide_True by done.
    by rewrite replace_every_absent by by apply mem_tilde_join. }
  split_and!; [done| |done].
  destruct (constrain_entry _ _ _ _ Hwf Hout Hin Hne) as (c & Hc & ->).
  congruence.
Qed.

Lemma tilde_compatible_release_witness :
  constraint_of ("~" +:+ Str.join "." ["1"; "2"])
  = Ok ("~=" +:+ Str.join "." ["1"; "2"])
  ∧ dict_get "b" [("a", "==0.1"); ("b", "~=1.2")]
    = Some ("~=" +:+ Str.join "." ["1"; "2"])
  ∧ constrain [("pkg", "~1.2.3")] = Ok [("pkg", "~=1.2.3")].
Proof.
  apply (tilde_compatible_release
           [("a", "0.1"); ("python", "^3.8"); ("b", "~1.2")]
           [("a", "==0.1"); ("b", "~=1.2")] "b" ["1"; "2"]).
  - split; [simpl; lia|]. by repeat constructor.
  - compute_done.
  - vm_compute. reflexivity.
  - compute_done.
  - compute_done.
Defined.

(** C7.  An entry whose version starts with neither [^] nor [~] is pinned:
    its constraint is [==] followed by the version as it is;
    [{"pkg": "1.2.3"}] yields [{"pkg": "==1.2.3"}]. *)
Theorem exact_pin (dependencies out : dict) (package version : string) :
  Str.startswith "^" version = false →
  Str.startswith "~" version = false →
  dict_wf dependencies →
  constrain dependencies = Ok out →
  (package, version) ∈ dependencies →
  package ≠ "python" →
  constraint_of version = Ok ("==" +:+ version)
  ∧ dict_get package out = Some ("==" +:+ version)
  ∧ constrain [("pkg", "1.2.3")] = Ok [("pkg", "==1.2.3")].
Proof.
  intros Hcaret Htilde Hwf Hout Hin Hne.
  assert (constraint_of version = Ok ("==" +:+ version)) as Hof.
  { unfold constraint_of. by rewrite Hcaret, Htilde. }
  split_and!; [done| |done].
  destruct (constrain_entry _ _ _ _ Hwf Hout Hin Hne) as (c & Hc & ->).
  congruence.
Qed.

Lemma exact_pin_witness :
  constraint_of "1.0" = Ok ("==" +:+ "1.0")
  ∧ dict_get "a" [("a", "==1.0"); ("b", "==*")] = Some ("==" +:+ "1.0")
  ∧ constrain [("pkg", "1.2.3")] = Ok [("pkg", "==1.2.3")].
Proof.
  apply (exact_pin [("a", "1.0"); ("b", "*")]
           [("a", "==1.0"); ("b", "==*")] "a" "1.0").
  - reflexivity.
  - reflexivity.
  - compute_done.
  - vm_compute. reflexivity.
  - compute_done.
  - compute_done.
Defined.

(** C9.  An entry whose version starts with [~] has every [~] of the
    version replaced by [~=], not the first one only; ["~1.2~3"] becomes
    ["~=1.2~=3"]. *)
Theorem tilde_replaces_every_occurrence
    (dependencies out : dict) (package version : string) :
  Str.startswith "~" version = true →
  dict_wf dependencies →
  constrain dependencies = Ok out →
  (package, version) ∈ dependencies →
  package ≠ "python" →
  constraint_of version = Ok (replace_every "~" "~=" version)
  ∧ dict_get package out = Some (replace_every "~" "~=" version)
  ∧ constrain [("pkg", "~1.2~3")] = Ok [("pkg", "~=1.2~=3")].
Proof.
  intros Htilde Hwf Hout Hin Hne.
  assert (constraint_of version = Ok (replace_every "~" "~=" version)) as Hof.
  { unfold constraint_of. rewrite Htilde.
    apply startswith_single in Htilde as [s ->].
    change (Str.startswith "^" (String "~" s)) with false. cbv iota.
    change "~"%string with (String "~" "") at 1.
    by rewrite replace_single. }
  split_and!; [done| |done].
  destruct (constrain_entry _ _ _ _ Hwf Hout Hin Hne) as (c & Hc & ->).
  congruence.
Qed.

Lemma tilde_replaces_every_occurrence_witness :
  constraint_of "~1~2" = Ok (replace_every "~" "~=" "~1~2")
  ∧ dict_get "a" [("a", "~=1~=2")] = Some (replace_every "~" "~=" "~1~2")
  ∧ constrain [("pkg", "~1.2~3")] = Ok [("pkg", "~=1.2~=3")].
Proof.
  apply (tilde_replaces_every_occurrence
           [("a", "~1~2")] [("a", "~=1~=2")] "a" "~1~2").
  - reflexivity.
  - compute_done.
  - vm_compute. reflexivity.
  - compute_done.
  - compute_done.
Defined.

(** ** The keys of the result *)

Lemma constrain_for_not_python (acc out : dict) (items : list (string * string)) :
  constrain_for acc items = Ok out →
  "python" ∉ dict_keys acc → "python" ∉ dict_keys out.
Proof.
  revert acc. induction items as [|[package version] items IH]; intros acc.
  { by intros [= <-]. }
  cbn [constrain_for].
  intros (acc' & Hbody & Hrest)%bind_Ok_inv Hacc. apply (IH acc' Hrest).
  destruct (decide (package = "python")) as [->|Hne].
  - rewrite constrain_body_python in Hbody. by injection Hbody as <-.
  - rewrite constrain_body_other in Hbody by done.
    apply bind_Ok_inv in Hbody as (c & _ & [= <-]).
    rewrite dict_set_keys. case_decide; [done|].
    intros [?|Hin]%elem_of_app; [done|].
    by apply list_elem_of_singleton in Hin.
Qed.

(** C4.  The entry keyed ["python"] is left out: it is not among the keys
    of a result, which is the result for the dictionary without that
    entry; [{"python": "^3.8"}] yields [{}]. *)
Theorem python_entry_excluded (dependencies out : dict) :
  constrain dependencies = Ok out →
  ("python" ∉ dict_keys out)
  ∧ dict_get "python" out = None
  ∧ constrain (emitted dependencies) = Ok out
  ∧ constrain [("python", "^3.8")] = Ok [].
Proof.
  intros Hout.
  assert ("python" ∉ dict_keys out) as Hpy.
  { apply (constrain_for_not_python [] out (dict_items dependencies) Hout).
    apply not_elem_of_nil. }
  split_and!; [done|by apply dict_get_None| |done].
  unfold constrain, dict_items in *. by rewrite <-constrain_for_emitted.
Qed.

Lemma python_entry_excluded_witness :
  ("python" ∉ dict_keys [("a", ">=1.2.0, <2.0.0")])
  ∧ dict_get "python" [("a", ">=1.2.0, <2.0.0")] = None
  ∧ constrain (emitted [("python", "^3.8"); ("a", "^1.2")])
    = Ok [("a", ">=1.2.0, <2.0.0")]
  ∧ constrain [("python", "^3.8")] = Ok [].
Proof.
  apply (python_entry_excluded [("python", "^3.8"); ("a", "^1.2")]).
  vm_compute. reflexivity.
Defined.

(** C5.  On a dictionary (distinct keys) with N entries, the result of
    [constrain] has every key of the argument that is not excluded, each
    once and in the order of the argument, and no other key: the keys of
    the argument other than ["python"], as many as the argument has
    entries, the entry of ["python"] not counted.  [constrain] returns when
    the constraint of every entry that is not excluded is computed. *)
Theorem constrain_keys_in_order (dependencies : dict) :
  dict_wf dependencies →
  (∀ out, constrain dependencies = Ok out →
     dict_keys out = filter not_python (dict_keys dependencies)
     ∧ NoDup (dict_keys out)
     ∧ (length out
        + (if decide ("python" ∈ dict_keys dependencies) then 1 else 0))%nat
       = length dependencies)
  ∧ (Forall (fun item => item.1 = "python" ∨ ∃ c, constraint_of item.2 = Ok c)
       dependencies →
     ∃ out, constrain dependencies = Ok out).
Proof.
  intros Hwf. split; [|by apply constrain_returns].
  intros out Hout.
  pose proof (constrain_keys _ _ Hwf Hout) as Hkeys.
  split_and!; [done|rewrite Hkeys; by apply NoDup_filter|].
  rewrite <-(length_fmap fst out). fold (dict_keys out). rewrite Hkeys.
  rewrite filter_not_python_length by done.
  unfold dict_keys. by rewrite length_fmap.
Qed.

Lemma constrain_keys_in_order_witness :
  (∀ out,
     constrain [("b", "^1.2"); ("python", "^3.8"); ("a", "~1.2.3")] = Ok out →
     dict_keys out
     = filter not_python
         (dict_keys [("b", "^1.2"); ("python", "^3.8"); ("a", "~1.2.3")])
     ∧ NoDup (dict_keys out)
     ∧ (length out
        + (if decide ("python" ∈ dict_keys
                        [("b", "^1.2"); ("python", "^3.8"); ("a", "~1.2.3")])
           then 1 else 0))%nat
       = length [("b", "^1.2"); ("python", "^3.8"); ("a", "~1.2.3")])
  ∧ (Forall (fun item => item.1 = "python" ∨ ∃ c, constraint_of item.2 = Ok c)
       [("b", "^1.2"); ("python", "^3.8"); ("a", "~1.2.3")] →
     ∃ out,
       constrain [("b", "^1.2"); ("python", "^3.8"); ("a", "~1.2.3")] = Ok out).
Proof.
  apply (constrain_keys_in_order
           [("b", "^1.2"); ("python", "^3.8"); ("a", "~1.2.3")]).
  compute_done.
Defined.

(** ** Two calls *)

(** C8.  Two calls of [constrain] on the same dictionary, one after the
    other: the first call leaves the dictionary as it was, the second
    returns a new dictionary with the items of the first result, in the
    same order, and does not change the first result; when the first call
    raises, so does a second one, with the same exception, whatever the
    first left behind. *)
Theorem constrain_deterministic (h : heap) (dependencies : ref) :
  (dependencies < length h)%nat →
  match constrain_call dependencies h with
  | Ok (r1, h1) =>
      heap_read h1 dependencies = heap_read h dependencies
      ∧ constrain (heap_read h dependencies) = Ok (heap_read h1 r1)
      ∧ ∃ r2 h2,
          constrain_call dependencies h1 = Ok (r2, h2)
          ∧ r2 ≠ r1
          ∧ heap_read h2 r2 = heap_read h1 r1
          ∧ heap_read h2 r1 = heap_read h1 r1
          ∧ heap_read h2 dependencies = heap_read h dependencies
  | Raise e =>
      constrain (heap_read h dependencies) = Raise e
      ∧ ∀ partial : dict,
          constrain_call dependencies (h ++ [partial]) = Raise e
  end.
Proof.
  intros Hdep. rewrite constrain_call_closed by done.
  destruct (constrain (heap_read h dependencies)) as [out|e] eqn:Hout.
  - rewrite bind_Ok.
    assert (dependencies < length (h ++ [out]))%nat as Hdep1.
    { rewrite length_app. simpl. lia. }
    assert (heap_read (h ++ [out]) dependencies = heap_read h dependencies)
      as Hsame by by apply heap_read_app_l.
    split_and!; [done|by rewrite heap_read_app_new|].
    exists (length (h ++ [out])), ((h ++ [out]) ++ [out]).
    rewrite constrain_call_closed, Hsame, Hout, bind_Ok by done.
    split_and!; [done| | | |].
    + rewrite length_app. simpl. lia.
    + by rewrite !heap_read_app_new.
    + apply heap_read_app_l. rewrite length_app. simpl. lia.
    + rewrite heap_read_app_l by done. done.
  - rewrite bind_Raise. split; [done|]. intros partial.
    rewrite constrain_call_closed by (rewrite length_app; simpl; lia).
    by rewrite heap_read_app_l, Hout by done.
Qed.

Lemma constrain_deterministic_witness :
  match constrain_call 0%nat [[("a", "^1.2"); ("python", "^3.8")]] with
  | Ok (r1, h1) =>
      heap_read h1 0%nat
      = heap_read [[("a", "^1.2"); ("python", "^3.8")]] 0%nat
      ∧ constrain (heap_read [[("a", "^1.2"); ("python", "^3.8")]] 0%nat)
        = Ok (heap_read h1 r1)
      ∧ ∃ r2 h2,
          constrain_call 0%nat h1 = Ok (r2, h2)
          ∧ r2 ≠ r1
          ∧ heap_read h2 r2 = heap_read h1 r1
          ∧ heap_read h2 r1 = heap_read h1 r1
          ∧ heap_read h2 0%nat
            = heap_read [[("a", "^1.2"); ("python", "^3.8")]] 0%nat
  | Raise e =>
      constrain (heap_read [[("a", "^1.2"); ("python", "^3.8")]] 0%nat)
      = Raise e
      ∧ ∀ partial : dict,
          constrain_call 0%nat
            ([[("a", "^1.2"); ("python", "^3.8")]] ++ [partial])
          = Raise e
  end.
Proof.
  apply (constrain_deterministic [[("a", "^1.2"); ("python", "^3.8")]] 0%nat).
  simpl. lia.
Defined.


(** * Further properties of the code *)

(** ** [caret]: [IndexError] and unusual versions *)

Lemma mapM_Raise_first {A B} (f : A → result B) (l : list A) e :
  mapM f l = Raise e
  ↔ ∃ before x after,
      l = before ++ x :: after
      ∧ Forall (fun a => ∃ b, f a = Ok b) before
      ∧ f x = Raise e.
Proof.
  induction l as [|a l IH].
  { split; [done|]. intros (before & x & after & Hl & _). by destruct before. }
  rewrite mapM_cons. destruct (f a) as [b|e'] eqn:Ha.
  - rewrite bind_Ok. split.
    + destruct (mapM f l) as [bs|e'']; [done|]. intros [= <-].
      destruct (proj1 IH eq_refl) as (before & x & after & -> & Hbefore & Hx).
      exists (a :: before), x, after. split_and!; [done| |done].
      constructor; [by exists b|done].
    + intros (before & x & after & Hl & Hbefore & Hx).
      destruct before as [|a' before]; injection Hl as <- ->; [congruence|].
      apply Forall_cons in Hbefore as [_ Hbefore].
      by rewrite (proj2 IH) by by exists before, x, after.
  - split.
    + intros [= <-]. exists [], a, l. by split_and!.
    + intros (before & x & after & Hl & Hbefore & Hx).
      destruct before as [|a' before]; injection Hl as <- ->.
      * rewrite bind_Raise. congruence.
      * apply Forall_cons in Hbefore as [[b Hb] _]. congruence.
Qed.

Lemma int_from_Raise (s : string) (acc : N) e :
  Str.int_from acc s = Raise e → e = ValueError.
Proof.
  revert acc. induction s as [|c s IH]; intros acc; [done|]. simpl.
  destruct (Ascii.is_nat c); [apply IH|by intros [= <-]].
Qed.

Lemma int_Raise (s : string) e : Str.int s = Raise e → e = ValueError.
Proof. destruct s; [by intros [= <-]|apply int_from_Raise]. Qed.

(** The list comprehension raises nothing but what [int] raises. *)
Lemma caret_numbers_Raise (lower_bound : string) e :
  caret_numbers lower_bound = Raise e → e = ValueError.
Proof.
  unfold caret_numbers.
  intros (_ & s & _ & _ & _ & Hs)%mapM_Raise_first. by apply int_Raise in Hs.
Qed.

Lemma caret_numbers_length (lower_bound : string) (numbers : list N) :
  caret_numbers lower_bound = Ok numbers →
  length numbers = length (Str.findall_digits lower_bound).
Proof.
  unfold caret_numbers. intros Hn%mapM_Ok_Forall2.
  symmetry. by eapply Forall2_length.
Qed.

Lemma caret_upper_numbers_Raise (numbers : list N) e :
  caret_upper_numbers numbers = Raise e → numbers = [].
Proof.
  destruct numbers as [|n numbers]; [done|]. intros Hraise.
  destruct (caret_upper_numbers_total (n :: numbers)) as (upper & Hu & _);
    [done|congruence].
Qed.

Lemma caret_IndexError (version : string) :
  caret version = Raise IndexError
  ↔ Str.findall_digits (caret_lower_bound version) = [].
Proof.
  unfold caret. split.
  - destruct (caret_numbers (caret_lower_bound version)) as [numbers|e] eqn:Hn.
    + rewrite bind_Ok.
      destruct (caret_upper_numbers numbers) as [upper|e] eqn:Hu; [done|].
      intros _. apply caret_upper_numbers_Raise in Hu as ->.
      apply caret_numbers_length in Hn. by apply nil_length_inv.
    + apply caret_numbers_Raise in Hn as ->. done.
  - intros Hnil. unfold caret_numbers. by rewrite Hnil.
Qed.

(** [caret] raises [IndexError] exactly when the padded version holds no
    digit: the list of numbers is empty and [numbers[-1]] has nothing to
    index. *)
Theorem caret_index_error_iff_no_digit (version : string) :
  caret version = Raise IndexError
  ↔ Str.findall_digits (caret_lower_bound version) = [].
Proof. apply caret_IndexError. Qed.

Lemma digit_runs_run_nonempty (run s : string) :
  run ≠ EmptyString → Str.digit_runs run s ≠ [].
Proof.
  revert run. induction s as [|c s IH]; intros run Hrun; simpl.
  - by destruct run.
  - destruct (Str.is_digit c).
    + apply IH. by destruct run.
    + by destruct run.
Qed.

Lemma digit_runs_with_digit (run s t : string) (c : ascii) :
  Str.is_digit c = true → Str.digit_runs run (s +:+ String c t) ≠ [].
Proof.
  intros Hc. revert run. induction s as [|a s IH]; intros run.
  - rewrite str_app_nil_l. simpl. rewrite Hc.
    apply digit_runs_run_nonempty. by destruct run.
  - rewrite str_app_cons. simpl. destruct (Str.is_digit a); [apply IH|].
    intros [_ Hnil]%app_eq_nil. by apply IH in Hnil.
Qed.


Lemma mul_positive (s : string) (k : Z) :
  0 < k → Str.mul s k = s +:+ Str.mul s (k - 1).
Proof.
  intros Hk. unfold Str.mul.
  replace (Z.to_nat k) with (S (Z.to_nat (k - 1))) by lia. done.
Qed.

(** A version with fewer than two dots after its carets never makes
    [caret] raise [IndexError]: the padding brings a digit, and the list of
    numbers is not empty. *)
Theorem caret_below_two_dots_has_digit (version : string) :
  (Str.count "." (Str.lstrip "^" version) < 2)%nat →
  Str.findall_digits (caret_lower_bound version) ≠ []
  ∧ caret version ≠ Raise IndexError.
Proof.
  intros Hdots.
  assert (Str.findall_digits (caret_lower_bound version) ≠ []) as Hruns.
  { unfold caret_lower_bound. rewrite mul_positive by lia.
    change (".0" +:+ ?t) with (String "." (String "0" t)).
    rewrite <-(str_app_nil_r (Str.lstrip "^" version)) at 1.
    rewrite str_app_assoc, str_app_nil_l.
    change (String "." (String "0" ?t)) with ("." +:+ String "0" t).
    rewrite <-str_app_assoc. by apply digit_runs_with_digit. }
  split; [done|]. by intros Hraise%caret_IndexError.
Qed.

Lemma caret_below_two_dots_has_digit_witness :
  Str.findall_digits (caret_lower_bound "^x.y") ≠ []
  ∧ caret "^x.y" ≠ Raise IndexError.
Proof. apply (caret_below_two_dots_has_digit "^x.y"). compute_done. Defined.

Lemma lstrip_carets (n : nat) (version : string) :
  Str.lstrip "^" (Nat.iter n (String.append "^") EmptyString +:+ version)
  = Str.lstrip "^" version.
Proof. induction n as [|n IH]; [done|exact IH]. Qed.

(** Every leading caret is stripped, not the first one only: a version
    with several carets is translated like the version with none, and is
    a caret version. *)
Theorem caret_strips_every_caret (k : Z) (version : string) :
  0 < k →
  constraint_of (Str.mul "^" k +:+ version) = caret version
  ∧ caret_lower_bound (Str.mul "^" k +:+ version) = caret_lower_bound version.
Proof.
  intros Hk.
  assert (caret_lower_bound (Str.mul "^" k +:+ version)
          = caret_lower_bound version) as Hlower.
  { unfold caret_lower_bound, Str.mul. by rewrite lstrip_carets. }
  split; [|done]. unfold constraint_of.
  assert (Str.startswith "^" (Str.mul "^" k +:+ version) = true) as ->.
  { rewrite (mul_positive "^" k Hk), str_app_assoc.
    apply (prefix_single "^" "^"). }
  unfold caret. by rewrite Hlower.
Qed.

Lemma caret_strips_every_caret_witness :
  constraint_of (Str.mul "^" 2 +:+ "1.2") = caret "1.2"
  ∧ caret_lower_bound (Str.mul "^" 2 +:+ "1.2") = caret_lower_bound "1.2".
Proof. apply (caret_strips_every_caret 2 "1.2"). lia. Defined.

(** ** The upper bound of a list of any length *)

Lemma leftmost_nonzero_zeros (k : nat) :
  leftmost_nonzero (replicate k 0%N) = None.
Proof. induction k as [|k IH]; [done|]. simpl. by rewrite IH. Qed.

Lemma leftmost_nonzero_found (k : nat) (x : N) (rest : list N) :
  x ≠ 0%N → leftmost_nonzero (replicate k 0%N ++ x :: rest) = Some k.
Proof.
  intros Hx. induction k as [|k IH]; simpl.
  - by destruct x.
  - by rewrite IH.
Qed.

Lemma leftmost_nonzero_split (ns : list N) :
  match leftmost_nonzero ns with
  | Some k => ∃ x rest, ns = replicate k 0%N ++ x :: rest ∧ x ≠ 0%N
  | None => ns = replicate (length ns) 0%N
  end.
Proof.
  induction ns as [|n ns IH]; [done|]. simpl.
  destruct n as [|p]; simpl.
  - destruct (leftmost_nonzero ns) as [k|]; simpl.
    + destruct IH as (x & rest & -> & Hx). by exists x, rest.
    + by rewrite <-IH.
  - by exists (N.pos p), ns.
Qed.

Lemma caret_for_zeros (k : nat) (rest : list N) :
  caret_for (replicate k 0%N ++ rest)
    (imap (fun i x => ((k + i)%nat, x)) rest)
  = match leftmost_nonzero rest with
    | Some j =>
        Ok (replicate (k + j) 0%N
            ++ (rest !!! j + 1)%N :: replicate (length rest - S j) 0%N)
    | None =>
        match k, rest with
        | O, [] => Raise IndexError
        | _, _ => Ok (replicate (k + length rest - 1) 0%N ++ [1%N])
        end
    end.
Proof.
  revert k. induction rest as [|x rest IH]; intros k.
  - rewrite app_nil_r. destruct k as [|k]; [done|].
    cbn [imap caret_for leftmost_nonzero length]. unfold list_iadd.
    rewrite length_replicate, py_index_last, bind_Ok by lia. f_equal.
    replace (S k - 1)%nat with k by lia.
    replace (S k + 0 - 1)%nat with k by lia.
    rewrite replicate_S_end, alter_app_r_alt by (rewrite length_replicate; lia).
    by rewrite length_replicate, Nat.sub_diag.
  - rewrite imap_cons. cbn [caret_for]. rewrite Nat.add_0_r.
    destruct x as [|p].
    + cbn [N.ltb N.compare leftmost_nonzero N.eqb].
      replace (replicate k 0%N ++ 0%N :: rest)
        with (replicate (S k) 0%N ++ rest)
        by (by rewrite replicate_S_end, <-app_assoc).
      rewrite (imap_ext _ (fun i x => ((S k + i)%nat, x)))
        by (intros; simpl; f_equal; lia).
      rewrite IH. destruct (leftmost_nonzero rest) as [j|]; simpl.
      * by rewrite Nat.add_succ_r.
      * rewrite Nat.sub_0_r.
        replace (k + S (length rest) - 1)%nat with (k + length rest)%nat by lia.
        by destruct k.
    + cbn [N.ltb N.compare leftmost_nonzero N.eqb]. unfold list_iadd.
      rewrite py_index_in_range
        by (rewrite length_app, length_replicate; simpl; lia).
      rewrite bind_Ok.
      rewrite alter_app_r_alt by (rewrite length_replicate; lia).
      rewrite length_replicate, Nat.sub_diag. cbn [alter list_alter].
      rewrite bind_Ok. f_equal.
      rewrite imap_app, length_replicate, imap_cons, !Nat.add_0_r.
      rewrite Nat.ltb_irrefl. cbn [length lookup_total list_lookup_total].
      replace (S (length rest) - 1)%nat with (length rest) by lia. f_equal.
      * apply list_eq. intros i. rewrite list_lookup_imap.
        destruct (replicate k 0%N !! i) as [y|] eqn:Hi; [|done].
        simpl. apply lookup_replicate in Hi as [-> Hi].
        by rewrite (proj2 (Nat.ltb_ge _ _)) by lia.
      * f_equal. apply list_eq. intros i. rewrite list_lookup_imap.
        destruct (rest !! i) as [y|] eqn:Hi; simpl.
        -- rewrite (proj2 (Nat.ltb_lt _ _)) by lia. symmetry.
           apply lookup_replicate. split; [done|]. by eapply lookup_lt_Some.
        -- symmetry. apply lookup_replicate_None.
           by apply lookup_ge_None.
Qed.

Lemma caret_upper_numbers_one_nonzero (numbers : list N) :
  caret_upper_numbers numbers
  = match leftmost_nonzero numbers with
    | Some k =>
        Ok (replicate k 0%N
            ++ (numbers !!! k + 1)%N :: replicate (length numbers - S k) 0%N)
    | None =>
        match numbers with
        | [] => Raise IndexError
        | _ => Ok (replicate (length numbers - 1) 0%N ++ [1%N])
        end
    end.
Proof.
  unfold caret_upper_numbers, enumerate.
  transitivity (caret_for (replicate 0 0%N ++ numbers)
                  (imap (fun i x => ((0 + i)%nat, x)) numbers)); [done|].
  rewrite (caret_for_zeros 0 numbers).
  destruct (leftmost_nonzero numbers); [done|]. by destruct numbers.
Qed.

(** For a list of any length the [for ... else] statement gives a list
    with one non-zero component: the leftmost non-zero component
    incremented, or 1 in the last place when every component is zero; on
    the empty list it raises [IndexError]. *)
Theorem caret_upper_numbers_closed (numbers : list N) :
  caret_upper_numbers numbers
  = match leftmost_nonzero numbers with
    | Some k =>
        Ok (replicate k 0%N
            ++ (numbers !!! k + 1)%N :: replicate (length numbers - S k) 0%N)
    | None =>
        match numbers with
        | [] => Raise IndexError
        | _ => Ok (replicate (length numbers - 1) 0%N ++ [1%N])
        end
    end.
Proof. apply caret_upper_numbers_one_nonzero. Qed.

Lemma lex_le_zeros (k : nat) (xs ys : list N) :
  lex_le (replicate k 0%N ++ xs) (replicate k 0%N ++ ys) = lex_le xs ys.
Proof. induction k as [|k IH]; [done|]. simpl. exact IH. Qed.

(** Whatever the number of components, the upper bound has as many
    components as the lower bound and lies strictly above it: the range is
    never empty. *)
Theorem caret_upper_strictly_above (numbers upper : list N) :
  caret_upper_numbers numbers = Ok upper →
  length upper = length numbers
  ∧ lex_le numbers upper = true
  ∧ lex_le upper numbers = false.
Proof.
  rewrite caret_upper_numbers_one_nonzero.
  pose proof (leftmost_nonzero_split numbers) as Hsplit.
  destruct (leftmost_nonzero numbers) as [k|].
  - destruct Hsplit as (x & rest & -> & Hx). intros [= <-].
    rewrite list_lookup_total_middle by by rewrite length_replicate.
    rewrite !length_app, !length_replicate, !lex_le_zeros. simpl.
    rewrite length_replicate. split_and!.
    + lia.
    + by rewrite (proj2 (N.ltb_lt x (x + 1))) by lia.
    + rewrite (proj2 (N.ltb_ge (x + 1) x)) by lia.
      by rewrite (proj2 (N.eqb_neq (x + 1) x)) by lia.
  - destruct numbers as [|n numbers]; [done|]. intros [= <-].
    rewrite Hsplit. cbn [length]. rewrite length_app, !length_replicate.
    rewrite Nat.sub_0_r, replicate_S_end, !lex_le_zeros.
    split_and!; [simpl; lia|done..].
Qed.

Lemma caret_upper_strictly_above_witness :
  length [0; 0; 0; 8; 0]%N = length [0; 0; 0; 7; 5]%N
  ∧ lex_le [0; 0; 0; 7; 5]%N [0; 0; 0; 8; 0]%N = true
  ∧ lex_le [0; 0; 0; 8; 0]%N [0; 0; 0; 7; 5]%N = false.
Proof.
  apply (caret_upper_strictly_above [0; 0; 0; 7; 5]%N [0; 0; 0; 8; 0]%N).
  reflexivity.
Defined.



(** ** The constraint of an entry *)

Lemma prefix_nil (s : string) : String.prefix EmptyString s = true.
Proof. by destruct s. Qed.

Lemma caret_Ok_inv (version constraint : string) :
  caret version = Ok constraint →
  ∃ upper, constraint
           = ">=" +:+ caret_lower_bound version +:+ ", <" +:+ upper.
Proof.
  unfold caret.
  intros (ns & _ & (us & _ & [= <-])%bind_Ok_inv)%bind_Ok_inv. by eexists.
Qed.

(** Every constraint [constrain] emits starts with the operator of its
    rule: [>=] for a caret version, [~=] for a tilde version, [==]
    otherwise; written after the package name it makes a requirement
    line. *)
Theorem constraint_starts_with_operator (version constraint : string) :
  constraint_of version = Ok constraint →
  (Str.startswith "^" version = true ∧ Str.startswith ">=" constraint = true)
  ∨ (Str.startswith "~" version = true ∧ Str.startswith "~=" constraint = true)
  ∨ (Str.startswith "^" version = false ∧ Str.startswith "~" version = false
     ∧ constraint = "==" +:+ version).
Proof.
  unfold constraint_of.
  destruct (Str.startswith "^" version) eqn:Hcaret.
  { intros [upper ->]%caret_Ok_inv. left. split; [done|].
    unfold Str.startswith. change (">=" +:+ ?s) with (String ">" (String "=" s)).
    simpl. apply prefix_nil. }
  destruct (Str.startswith "~" version) eqn:Htilde; intros [= <-].
  - right. left. split; [done|].
    apply startswith_single in Htilde as [s ->].
    change (Str.replace_from "~" "~=" 0 ?x)
      with (Str.replace (String "~" "") "~=" x).
    rewrite replace_single.
    cbn [replace_every]. rewrite decide_True by done.
    unfold Str.startswith.
    change ("~=" +:+ ?s) with (String "~" (String "=" s)).
    simpl. apply prefix_nil.
  - by right; right.
Qed.

Lemma constraint_starts_with_operator_witness :
  (Str.startswith "^" "~1.2" = true
   ∧ Str.startswith ">=" "~=1.2" = true)
  ∨ (Str.startswith "~" "~1.2" = true ∧ Str.startswith "~=" "~=1.2" = true)
  ∨ (Str.startswith "^" "~1.2" = false ∧ Str.startswith "~" "~1.2" = false
     ∧ "~=1.2" = "==" +:+ "~1.2").
Proof. apply (constraint_starts_with_operator "~1.2" "~=1.2"). reflexivity. Defined.

(** ** [constrain]: the whole result and its exceptions *)

Lemma translate_item_Ok (item o : string * string) :
  translate_item item = Ok o ↔ o.1 = item.1 ∧ constraint_of item.2 = Ok o.2.
Proof.
  unfold translate_item. destruct item as [k v], o as [k' c]. simpl. split.
  - by intros (c' & -> & [= <- <-])%bind_Ok_inv.
  - intros [-> ->]. by rewrite bind_Ok.
Qed.

Lemma constraint_of_IndexError (version : string) :
  constraint_of version = Raise IndexError ↔ digitless_caret version.
Proof.
  unfold constraint_of, digitless_caret.
  destruct (Str.startswith "^" version).
  - rewrite caret_IndexError. split; [done|by intros [_ ?]].
  - split; [by destruct (Str.startswith "~" version)|by intros [? _]].
Qed.

Lemma translate_item_Raise (item : string * string) e :
  translate_item item = Raise e ↔ constraint_of item.2 = Raise e.
Proof.
  unfold translate_item. destruct (constraint_of item.2) as [c|e'].
  - rewrite bind_Ok. split; intros Heq; discriminate Heq.
  - rewrite bind_Raise. split; by intros [= ->].
Qed.

(** The items of the result: one for every item of the argument that is
    not keyed ["python"], in the order of the argument, with the same key
    and the constraint of its version. *)
Theorem constrain_items (dependencies out : dict) :
  dict_wf dependencies →
  constrain dependencies = Ok out
  ↔ Forall2 (fun item o => o.1 = item.1 ∧ constraint_of item.2 = Ok o.2)
      (emitted dependencies) out.
Proof.
  intros Hwf. rewrite constrain_closed, mapM_Ok_Forall2 by done.
  split; intros Hall; (eapply Forall2_impl; [exact Hall|]);
    intros item o; apply translate_item_Ok.
Qed.

Lemma constrain_items_witness :
  constrain [("a", "^0.3"); ("python", "^3.8"); ("b", "1.0")]
  = Ok [("a", ">=0.3.0, <0.4.0"); ("b", "==1.0")]
  ↔ Forall2 (fun item o => o.1 = item.1 ∧ constraint_of item.2 = Ok o.2)
      (emitted [("a", "^0.3"); ("python", "^3.8"); ("b", "1.0")])
      [("a", ">=0.3.0, <0.4.0"); ("b", "==1.0")].
Proof.
  apply (constrain_items [("a", "^0.3"); ("python", "^3.8"); ("b", "1.0")]).
  compute_done.
Defined.

Lemma constrain_IndexError (dependencies : dict) :
  dict_wf dependencies →
  constrain dependencies = Raise IndexError
  ↔ ∃ before item after,
      emitted dependencies = before ++ item :: after
      ∧ Forall (fun entry => ∃ c, constraint_of entry.2 = Ok c) before
      ∧ digitless_caret item.2.
Proof.
  intros Hwf. rewrite constrain_closed, mapM_Raise_first by done.
  assert (∀ l : list (string * string),
    Forall (fun a => ∃ b, translate_item a = Ok b) l
    ↔ Forall (fun entry => ∃ c, constraint_of entry.2 = Ok c) l) as Hall.
  { intros l. apply Forall_proper; [|done]. intros entry. split.
    - intros [o [_ Ho]%translate_item_Ok]. by exists o.2.
    - intros [c Hc]. exists (entry.1, c). by apply translate_item_Ok. }
  split; intros (before & item & after & Hl & Hbefore & Hitem);
    exists before, item, after; (split_and!; [done|by apply Hall|]).
  - by apply constraint_of_IndexError, translate_item_Raise.
  - by apply translate_item_Raise, constraint_of_IndexError.
Qed.

(** [constrain] raises [IndexError] exactly when, among the entries not
    keyed ["python"], the first one whose constraint is not computed has a
    caret version without a digit. *)
Theorem constrain_index_error_iff (dependencies : dict) :
  dict_wf dependencies →
  constrain dependencies = Raise IndexError
  ↔ ∃ before item after,
      emitted dependencies = before ++ item :: after
      ∧ Forall (fun entry => ∃ c, constraint_of entry.2 = Ok c) before
      ∧ digitless_caret item.2.
Proof. apply constrain_IndexError. Qed.

Lemma constrain_index_error_iff_witness :
  constrain [("a", "1.0"); ("python", "^3"); ("b", "^x.y.z")]
  = Raise IndexError
  ↔ ∃ before item after,
      emitted [("a", "1.0"); ("python", "^3"); ("b", "^x.y.z")]
      = before ++ item :: after
      ∧ Forall (fun entry => ∃ c, constraint_of entry.2 = Ok c) before
      ∧ digitless_caret item.2.
Proof.
  apply (constrain_index_error_iff
           [("a", "1.0"); ("python", "^3"); ("b", "^x.y.z")]).
  compute_done.
Defined.

(** [constrain] goes through a dictionary part by part: the result of a
    dictionary in two parts is the result of the first part followed by
    the result of the second, and the exception of the first part that
    raises. *)
Theorem constrain_app (d1 d2 : dict) :
  dict_wf (d1 ++ d2) →
  constrain (d1 ++ d2)
  = out1 ← constrain d1; out2 ← constrain d2; Ok (out1 ++ out2).
Proof.
  intros Hwf.
  assert (dict_wf d1 ∧ dict_wf d2) as [Hwf1 Hwf2].
  { unfold dict_wf, dict_keys in *. rewrite fmap_app in Hwf.
    by apply NoDup_app in Hwf as (? & _ & ?). }
  rewrite !constrain_closed by done.
  unfold emitted. rewrite filter_app. apply mapM_app.
Qed.

Lemma constrain_app_witness :
  constrain ([("a", "^1")] ++ [("b", "~2")])
  = out1 ← constrain [("a", "^1")]; out2 ← constrain [("b", "~2")];
    Ok (out1 ++ out2).
Proof. apply (constrain_app [("a", "^1")] [("b", "~2")]). compute_done. Defined.

(** ** Values that are not strings *)

Lemma outcome_bind_Done {A B} (a : A) (k : A → outcome B) : Done a ≫= k = k a.
Proof. reflexivity. Qed.

Lemma outcome_bind_Done_inv {A B} (r : outcome A) (k : A → outcome B) b :
  r ≫= k = Done b → ∃ a, r = Done a ∧ k a = Done b.
Proof. destruct r as [a|e]; [by exists a|done]. Qed.

Lemma constrain_value_for_app (acc : dict) (l1 l2 : list (string * value)) :
  constrain_value_for acc (l1 ++ l2)
  = acc' ← constrain_value_for acc l1; constrain_value_for acc' l2.
Proof.
  revert acc. induction l1 as [|item l1 IH]; intros acc; [done|].
  rewrite <-app_comm_cons. cbn [constrain_value_for].
  destruct (constrain_value_body acc item) as [acc'|e]; [|done].
  rewrite !outcome_bind_Done. apply IH.
Qed.

(** On a table of strings [constrain] is the function on strings. *)
Lemma constrain_value_for_table_of (acc d : dict) :
  constrain_value_for acc (table_of d) = of_result (constrain_for acc d).
Proof.
  revert acc. induction d as [|[package version] d IH]; intros acc; [done|].
  unfold table_of. rewrite fmap_cons. fold (table_of d).
  cbn [constrain_value_for constrain_for constrain_value_body constrain_body
       fst snd].
  destruct (decide (package ≠ "python")); [|apply IH].
  cbn [constraint_of_value].
  destruct (constraint_of version) as [c|e]; [|done]. apply IH.
Qed.

Lemma constrain_value_table_of (d : dict) :
  constrain_value (VTable (table_of d)) = of_result (constrain d).
Proof. apply constrain_value_for_table_of. Qed.

(** The entry keyed ["python"] may hold a value of any kind: it is not
    looked at. *)
Theorem constrain_value_python_any_kind
    (before after : list (string * value)) (version : value) :
  constrain_value (VTable (before ++ ("python", version) :: after))
  = constrain_value (VTable (before ++ after)).
Proof.
  unfold constrain_value. rewrite !constrain_value_for_app.
  by destruct (constrain_value_for [] before).
Qed.

Lemma constrain_value_for_strings (acc out : dict) (items : list (string * value)) :
  constrain_value_for acc items = Done out →
  Forall (fun item => item.1 = "python" ∨ ∃ s, item.2 = VStr s) items.
Proof.
  revert acc. induction items as [|[package version] items IH]; intros acc.
  { constructor. }
  cbn [constrain_value_for].
  intros (acc' & Hbody & Hrest)%outcome_bind_Done_inv.
  constructor; [|by eapply IH]. simpl.
  unfold constrain_value_body in Hbody.
  case_decide as Hpy; [|left; by destruct (decide (package = "python"))].
  right. destruct version as [s| |]; [by exists s|done..].
Qed.

(** [constrain] returns only on a table, and only if every value of the
    table, that of ["python"] apart, is a string: a dependency given as a
    table, a number or an array makes it raise. *)
Theorem constrain_value_returns_on_strings (dependencies : value) (out : dict) :
  constrain_value dependencies = Done out →
  ∃ items, dependencies = VTable items
    ∧ Forall (fun item => item.1 = "python" ∨ ∃ s, item.2 = VStr s) items.
Proof.
  destruct dependencies as [s|items|]; [done| |done].
  intros Hout. exists items. split; [done|].
  by eapply constrain_value_for_strings.
Qed.

Lemma constrain_value_returns_on_strings_witness :
  ∃ items, VTable [("python", VOther); ("a", VStr "^1")] = VTable items
    ∧ Forall (fun item => item.1 = "python" ∨ ∃ s, item.2 = VStr s) items.
Proof.
  apply (constrain_value_returns_on_strings
           (VTable [("python", VOther); ("a", VStr "^1")])
           [("a", ">=1.0.0, <2.0.0")]).
  reflexivity.
Defined.

(** The first value that is not a string, under a key other than
    ["python"], raises [AttributeError], when the entries before it are
    translated. *)
Theorem constrain_value_not_a_string
    (before after : list (string * value)) (acc : dict)
    (package : string) (version : value) :
  constrain_value_for [] before = Done acc →
  package ≠ "python" →
  (∀ s, version ≠ VStr s) →
  constrain_value (VTable (before ++ (package, version) :: after))
  = Fail AttributeError.
Proof.
  intros Hbefore Hpy Hkind. unfold constrain_value.
  rewrite constrain_value_for_app, Hbefore, outcome_bind_Done.
  cbn [constrain_value_for constrain_value_body].
  rewrite decide_True by done.
  destruct version as [s| |]; [by destruct (Hkind s)|done..].
Qed.

Lemma constrain_value_not_a_string_witness :
  constrain_value
    (VTable ([("a", VStr "^1")]
             ++ ("b", VTable [("version", VStr "^2")]) :: [("c", VStr "1")]))
  = Fail AttributeError.
Proof.
  apply (constrain_value_not_a_string
           [("a", VStr "^1")] [("c", VStr "1")] [("a", ">=1.0.0, <2.0.0")]
           "b" (VTable [("version", VStr "^2")])).
  - reflexivity.
  - compute_done.
  - intros s. discriminate.
Defined.

(** ** [txtoml]: the output file *)

Lemma write_items_lines (requirements : string) (items : list (string * string)) :
  write_items requirements items = requirements +:+ requirement_lines items.
Proof.
  revert requirements.
  induction items as [|[package version] items IH]; intros requirements.
  { by rewrite str_app_nil_r. }
  cbn [write_items requirement_lines]. by rewrite IH, !str_app_assoc.
Qed.

Lemma txtoml_regular (pyproject : value) (now : string) (output : option string)
    (regular : dict) :
  poetry_table pyproject "dependencies" ≫= constrain_value = Done regular →
  txtoml pyproject now false output
  = (Done (),
     Some ("# Generated by txtoml on " +:+ now +:+ nl +:+ nl
           +:+ "# Dependencies" +:+ nl +:+ requirement_lines regular)).
Proof.
  intros Hregular. unfold txtoml. rewrite Hregular. cbv zeta.
  unfold dict_items. rewrite write_items_lines, str_app_nil_l.
  by rewrite !str_app_assoc.
Qed.

(** Without [--include-dev], on a table of strings with distinct keys:
    the file holds the line of the time stamp, an empty line, the heading
    and, for every dependency other than ["python"], in the order of the
    table, a line made of its name and its constraint. *)
Theorem txtoml_regular_text (pyproject : value) (now : string)
    (output : option string) (d out : dict) :
  poetry_table pyproject "dependencies" = Done (VTable (table_of d)) →
  dict_wf d →
  Forall2 (fun item o => o.1 = item.1 ∧ constraint_of item.2 = Ok o.2)
    (emitted d) out →
  txtoml pyproject now false output
  = (Done (),
     Some ("# Generated by txtoml on " +:+ now +:+ nl +:+ nl
           +:+ "# Dependencies" +:+ nl +:+ requirement_lines out)).
Proof.
  intros Htable Hwf Hout. apply txtoml_regular.
  rewrite Htable, outcome_bind_Done, constrain_value_table_of.
  rewrite constrain_closed by done.
  assert (mapM translate_item (emitted d) = Ok out) as ->; [|done].
  apply mapM_Ok_Forall2. eapply Forall2_impl; [exact Hout|].
  intros item o. apply translate_item_Ok.
Qed.

Lemma txtoml_regular_text_witness :
  txtoml
    (VTable [("tool", VTable [("poetry", VTable
       [("name", VStr "demo");
        ("dependencies", VTable (table_of [("python", "^3.8"); ("a", "^1.2")]))])])])
    "Mon Jan 01" false (Some "old")
  = (Done (),
     Some ("# Generated by txtoml on " +:+ "Mon Jan 01" +:+ nl +:+ nl
           +:+ "# Dependencies" +:+ nl
           +:+ requirement_lines [("a", ">=1.2.0, <2.0.0")])).
Proof.
  apply (txtoml_regular_text _ "Mon Jan 01" (Some "old")
           [("python", "^3.8"); ("a", "^1.2")] [("a", ">=1.2.0, <2.0.0")]).
  - reflexivity.
  - compute_done.
  - repeat constructor.
Defined.

(** A document without the table [tool], [tool.poetry] or
    [tool.poetry.dependencies] raises [KeyError] with the first missing
    key, and the output file is left as it was. *)
Theorem txtoml_missing_table (top : list (string * value)) (now : string)
    (include_dev : bool) (output : option string) (key : string) :
  (table_get "tool" top = None ∧ key = "tool")
  ∨ (∃ tool, table_get "tool" top = Some (VTable tool)
       ∧ ((table_get "poetry" tool = None ∧ key = "poetry")
          ∨ ∃ poetry, table_get "poetry" tool = Some (VTable poetry)
              ∧ table_get "dependencies" poetry = None
              ∧ key = "dependencies")) →
  txtoml (VTable top) now include_dev output = (Fail (KeyError key), output).
Proof.
  intros [[Htool ->]
         |(tool & Htool & [[Hpoetry ->]|(poetry & Hpoetry & Hdeps & ->)])];
    unfold txtoml, poetry_table; cbn [getitem]; rewrite Htool; [done|..];
    rewrite outcome_bind_Done; cbn [getitem]; rewrite Hpoetry; [done|].
  rewrite outcome_bind_Done. cbn [getitem]. by rewrite Hdeps.
Qed.

Lemma txtoml_missing_table_witness :
  txtoml (VTable [("tool", VTable [("poetry", VTable [("name", VStr "demo")])])])
    "Mon Jan 01" true (Some "old")
  = (Fail (KeyError "dependencies"), Some "old").
Proof.
  apply (txtoml_missing_table
           [("tool", VTable [("poetry", VTable [("name", VStr "demo")])])]).
  right. exists [("poetry", VTable [("name", VStr "demo")])].
  split; [reflexivity|]. right. exists [("name", VStr "demo")].
  by split_and!.
Defined.

(** When the regular dependencies are a table in which a string entry not
    keyed ["python"] has a caret version without a digit, and the entries
    before it are translated, [txtoml] raises [IndexError] before the
    output file is opened: the file is left as it was. *)
Theorem txtoml_regular_index_error (pyproject : value) (now : string)
    (include_dev : bool) (output : option string)
    (before after : list (string * value)) (acc : dict)
    (package version : string) :
  poetry_table pyproject "dependencies"
  = Done (VTable (before ++ (package, VStr version) :: after)) →
  constrain_value_for [] before = Done acc →
  package ≠ "python" →
  digitless_caret version →
  txtoml pyproject now include_dev output = (Fail (Exn IndexError), output).
Proof.
  intros Htable Hbefore Hpy Hversion. unfold txtoml.
  rewrite Htable, outcome_bind_Done. unfold constrain_value.
  rewrite constrain_value_for_app, Hbefore, outcome_bind_Done.
  cbn [constrain_value_for constrain_value_body constraint_of_value].
  rewrite decide_True by done.
  by rewrite (proj2 (constraint_of_IndexError version) Hversion).
Qed.

Lemma txtoml_regular_index_error_witness :
  txtoml
    (VTable [("tool", VTable [("poetry", VTable
       [("dependencies",
         VTable ([("python", VOther); ("a", VStr "1.0")]
                 ++ ("b", VStr "^x.y.z") :: [("c", VTable [])]))])])])
    "Mon Jan 01" true (Some "old")
  = (Fail (Exn IndexError), Some "old").
Proof.
  apply (txtoml_regular_index_error _ "Mon Jan 01" true (Some "old")
           [("python", VOther); ("a", VStr "1.0")] [("c", VTable [])]
           [("a", "==1.0")] "b" "^x.y.z").
  - reflexivity.
  - reflexivity.
  - compute_done.
  - split; reflexivity.
Defined.

(** [txtoml] completes only if the regular dependencies are a table whose
    values, that of ["python"] apart, are strings. *)
Theorem txtoml_completes_on_strings (pyproject : value) (now : string)
    (include_dev : bool) (output written : option string) :
  txtoml pyproject now include_dev output = (Done (), written) →
  ∃ items,
    poetry_table pyproject "dependencies" = Done (VTable items)
    ∧ Forall (fun item => item.1 = "python" ∨ ∃ s, item.2 = VStr s) items.
Proof.
  unfold txtoml.
  destruct (poetry_table pyproject "dependencies") as [table|e] eqn:Htable;
    [|done].
  rewrite outcome_bind_Done.
  destruct (constrain_value table) as [regular|e] eqn:Hregular; [|done].
  intros _. destruct table as [s|items|]; [done| |done].
  exists items. split; [done|]. by eapply constrain_value_for_strings.
Qed.

Lemma txtoml_completes_on_strings_witness :
  ∃ items,
    poetry_table
      (VTable [("tool", VTable [("poetry", VTable
         [("dependencies", VTable [("python", VOther); ("a", VStr "1.0")])])])])
      "dependencies"
    = Done (VTable items)
    ∧ Forall (fun item => item.1 = "python" ∨ ∃ s, item.2 = VStr s) items.
Proof.
  apply (txtoml_completes_on_strings
           (VTable [("tool", VTable [("poetry", VTable
              [("dependencies", VTable [("python", VOther); ("a", VStr "1.0")])])])])
           "Mon Jan 01" false None
           (Some ("# Generated by txtoml on " +:+ "Mon Jan 01" +:+ nl +:+ nl
                  +:+ "# Dependencies" +:+ nl +:+ "a==1.0" +:+ nl))).
  reflexivity.
Defined.

(** With [--include-dev], when the table of the development dependencies
    is missing or is not translated, the exception comes after the regular
    dependencies are written: the file is left with the text of a run
    without [--include-dev], and no heading for the development
    dependencies. *)
Theorem txtoml_dev_exception (pyproject : value) (now : string)
    (output : option string) (text : string) (e : error) :
  txtoml pyproject now false output = (Done (), Some text) →
  poetry_table pyproject "dev-dependencies" = Fail e
  ∨ (∃ table, poetry_table pyproject "dev-dependencies" = Done table
       ∧ constrain_value table = Fail e) →
  txtoml pyproject now true output = (Fail e, Some text).
Proof.
  unfold txtoml.
  destruct (poetry_table pyproject "dependencies" ≫= constrain_value)
    as [regular|e']; [|done].
  intros [= <-] [->|(table & -> & Hdev)]; [done|].
  by rewrite outcome_bind_Done, Hdev.
Qed.

Lemma txtoml_dev_exception_witness :
  txtoml
    (VTable [("tool", VTable [("poetry", VTable
       [("dependencies", VTable [("a", VStr "1.0")])])])])
    "Mon Jan 01" true (Some "old")
  = (Fail (KeyError "dev-dependencies"),
     Some ("# Generated by txtoml on " +:+ "Mon Jan 01" +:+ nl +:+ nl
           +:+ "# Dependencies" +:+ nl +:+ "a==1.0" +:+ nl)).
Proof.
  apply (txtoml_dev_exception
           (VTable [("tool", VTable [("poetry", VTable
              [("dependencies", VTable [("a", VStr "1.0")])])])])
           "Mon Jan 01" (Some "old")).
  - reflexivity.
  - left. reflexivity.
Defined.

(** With [--include-dev], when both tables are translated, the file holds
    the text of a run without [--include-dev], then an empty line, the
    heading of the development dependencies and their lines. *)
Theorem txtoml_dev_appends (pyproject table : value) (now : string)
    (output : option string) (text : string) (dev : dict) :
  txtoml pyproject now false output = (Done (), Some text) →
  poetry_table pyproject "dev-dependencies" = Done table →
  constrain_value table = Done dev →
  txtoml pyproject now true output
  = (Done (),
     Some (text +:+ nl +:+ "# Development dependencies" +:+ nl
           +:+ requirement_lines dev)).
Proof.
  unfold txtoml.
  destruct (poetry_table pyproject "dependencies" ≫= constrain_value)
    as [regular|e']; [|done].
  intros [= <-] -> Hdev. rewrite outcome_bind_Done, Hdev. cbv zeta.
  unfold dict_items. by rewrite (write_items_lines _ dev), !str_app_assoc.
Qed.

Lemma txtoml_dev_appends_witness :
  txtoml
    (VTable [("tool", VTable [("poetry", VTable
       [("dependencies", VTable [("a", VStr "1.0")]);
        ("dev-dependencies", VTable [("pytest", VStr "~6.2")])])])])
    "Mon Jan 01" true None
  = (Done (),
     Some (("# Generated by txtoml on " +:+ "Mon Jan 01" +:+ nl +:+ nl
            +:+ "# Dependencies" +:+ nl +:+ "a==1.0" +:+ nl)
           +:+ nl +:+ "# Development dependencies" +:+ nl
           +:+ requirement_lines [("pytest", "~=6.2")])).
Proof.
  apply (txtoml_dev_appends
           (VTable [("tool", VTable [("poetry", VTable
              [("dependencies", VTable [("a", VStr "1.0")]);
               ("dev-dependencies", VTable [("pytest", VStr "~6.2")])])])])
           (VTable [("pytest", VStr "~6.2")]) "Mon Jan 01" None).
  - reflexivity.
  - reflexivity.
  - reflexivity.
Defined.

(** ** What a call leaves in the heap *)

(** A call that returns creates one dictionary, the one it returns, after
    the objects there were, and changes none of them. *)
Theorem constrain_call_allocates (h h1 : heap) (dependencies r1 : ref) :
  (dependencies < length h)%nat →
  constrain_call dependencies h = Ok (r1, h1) →
  r1 = length h
  ∧ length h1 = S (length h)
  ∧ (∀ r, (r < length h)%nat → heap_read h1 r = heap_read h r)
  ∧ constrain (heap_read h dependencies) = Ok (heap_read h1 r1).
Proof.
  intros Hdep. rewrite constrain_call_closed by done.
  destruct (constrain (heap_read h dependencies)) as [out|e]; [|done].
  rewrite bind_Ok. intros [= <- <-]. split_and!; [done| | |].
  - rewrite length_app. simpl. lia.
  - intros r Hr. by apply heap_read_app_l.
  - by rewrite heap_read_app_new.
Qed.

Lemma constrain_call_allocates_witness :
  1%nat = length [[("a", "^1.2")]]
  ∧ length [[("a", "^1.2")]; [("a", ">=1.2.0, <2.0.0")]]
    = S (length [[("a", "^1.2")]])
  ∧ (∀ r, (r < length [[("a", "^1.2")]])%nat →
       heap_read [[("a", "^1.2")]; [("a", ">=1.2.0, <2.0.0")]] r
       = heap_read [[("a", "^1.2")]] r)
  ∧ constrain (heap_read [[("a", "^1.2")]] 0%nat)
    = Ok (heap_read [[("a", "^1.2")]; [("a", ">=1.2.0, <2.0.0")]] 1%nat).
Proof.
  apply (constrain_call_allocates [[("a", "^1.2")]]
           [[("a", "^1.2")]; [("a", ">=1.2.0, <2.0.0")]] 0%nat 1%nat).
  - simpl. lia.
  - reflexivity.
Defined.
